(** * LeoNews: the Google News scraper (scripts/google_news_scraper.py)

    A shallow embedding of the script's four functions and of its top-level
    driver, followed by the properties of the two-stage extraction pipeline
    (feed resolution, feed normalisation), of the README excerpt, and of the
    process exit behaviour.

    A Python [str] is modelled by the [string] of its UTF-8 bytes.  Tests
    for prefixes, suffixes and substrings, splitting at an ASCII
    separator, the scan for the feed URL and the order of strings give
    the same results on those bytes as on the characters; where the
    script counts characters ([summary[:150]]) the model counts the
    characters that the bytes encode.  The script's
    collaborators (HTTP transport, HTML parser, feed parser, clock, file
    system) are the fields of a [World] record: every statement below
    holds for every behaviour of the collaborators. *)

From Stdlib Require Import Ascii.
From stdpp Require Import base option list strings gmap pretty sorting.

Set Warnings "-register-all".


(** ** Python string operations used by the script *)

Module Str.

(** [s.startswith(p)] *)
Fixpoint startswith (p s : string) : bool :=
  match p, s with
  | EmptyString, _ => true
  | String _ _, EmptyString => false
  | String a p', String b s' => if decide (a = b) then startswith p' s' else false
  end.

(** [s[n:]], [n] counted in bytes: used where the part dropped is
    ASCII. *)
Fixpoint drop (n : nat) (s : string) : string :=
  match n, s with
  | O, _ => s
  | S _, EmptyString => EmptyString
  | S n', String _ s' => drop n' s'
  end.

(** [s[:n]], [n] counted in bytes: used where what precedes and what is
    cut off is ASCII. *)
Fixpoint take (n : nat) (s : string) : string :=
  match n, s with
  | O, _ => EmptyString
  | S _, EmptyString => EmptyString
  | S n', String c s' => String c (take n' s')
  end.

(** [s.endswith(p)] *)
Definition endswith (p s : string) : bool :=
  bool_decide (String.length p ≤ String.length s)
  && startswith p (drop (String.length s - String.length p) s).

(** [s[a:-b]] for literal [a], [b] (the script uses [file[12:-5]] on a
    name that starts with the 12 characters of [google-news-] and ends
    with the 5 of [.json], all ASCII). *)
Definition slice_between (a b : nat) (s : string) : string :=
  take (String.length s - b - a) (drop a s).

(** [sub in s], the substring test. *)
Fixpoint contains (sub s : string) : bool :=
  startswith sub s ||
  match s with
  | EmptyString => false
  | String _ s' => contains sub s'
  end.

(** [s.split(sep)] for a non-empty separator: the pieces between the
    successive non-overlapping occurrences of [sep], scanning from the
    left.  [skip] counts the characters of a separator that are still to
    be stepped over; [cur] is the piece being collected. *)
Fixpoint split_go (sep : string) (skip : nat) (cur s : string) : list string :=
  match s with
  | EmptyString => [cur]
  | String c s' =>
      match skip with
      | S k => split_go sep k cur s'
      | O =>
          if startswith sep s
          then cur :: split_go sep (String.length sep - 1) EmptyString s'
          else split_go sep 0 (cur +:+ String c EmptyString) s'
      end
  end.

Definition split (sep s : string) : list string := split_go sep 0 EmptyString s.

(** A byte that continues a character begun by an earlier byte: in
    UTF-8 the bytes of the form 10xxxxxx. *)
Definition is_continuation (c : ascii) : bool :=
  match c with
  | Ascii _ _ _ _ _ _ b6 b7 => b7 && negb b6
  end.

(** [len(s)]: the number of characters of [s], one per byte that is not
    a continuation. *)
Fixpoint char_count (s : string) : nat :=
  match s with
  | EmptyString => 0
  | String c s' => if is_continuation c then char_count s' else S (char_count s')
  end.

(** [s[:n]] counted in characters: the bytes of the first [n]
    characters of [s]. *)
Fixpoint take_chars (n : nat) (s : string) : string :=
  match s with
  | EmptyString => EmptyString
  | String c s' =>
      if is_continuation c then String c (take_chars n s')
      else match n with
           | O => EmptyString
           | S n' => String c (take_chars n' s')
           end
  end.

(** The longest prefix of [s] whose characters all satisfy [p]. *)
Fixpoint span (p : ascii → bool) (s : string) : string :=
  match s with
  | EmptyString => EmptyString
  | String c s' => if p c then String c (span p s') else EmptyString
  end.

(** Every character of [s] satisfies [p]. *)
Fixpoint all (p : ascii → bool) (s : string) : bool :=
  match s with
  | EmptyString => true
  | String c s' => p c && all p s'
  end.

End Str.

(** [os.path.join(a, b)] on POSIX for a non-empty [a]. *)
Definition os_path_join (a b : string) : string :=
  if Str.startswith "/" b then b
  else if Str.endswith "/" a then a +:+ b
  else a +:+ "/" +:+ b.

(** ** The regular expression of the fallback scan

    [re.search] with the pattern made of the literal
    [https://news.google.com/rss/topics/] and of a negated character class
    (apostrophe, double quote) repeated once or more:
    the leftmost position at which the literal prefix is followed by at
    least one character other than an apostrophe or a double quote; the
    match is the prefix and the longest run of such characters. *)

Definition apostrophe : ascii := ascii_of_nat 39.
Definition double_quote : ascii := ascii_of_nat 34.

Definition is_quote (c : ascii) : bool :=
  bool_decide (c = apostrophe) || bool_decide (c = double_quote).

Definition not_quote (c : ascii) : bool := negb (is_quote c).

Definition rss_topics_prefix : string := "https://news.google.com/rss/topics/".

(** An attempt to match the pattern at the very start of [s]. *)
Definition match_here (s : string) : option string :=
  if Str.startswith rss_topics_prefix s then
    match Str.span not_quote (Str.drop (String.length rss_topics_prefix) s) with
    | EmptyString => None
    | String c id => Some (rss_topics_prefix +:+ String c id)
    end
  else None.

(** [re.search(...)] followed by [match.group(0) if match else None]. *)
Fixpoint re_search (s : string) : option string :=
  match match_here s with
  | Some m => Some m
  | None =>
      match s with
      | EmptyString => None
      | String _ s' => re_search s'
      end
  end.

(** ** Exceptions and the effect monad *)

(** The exceptions (instances of [Exception]) that the script can meet:
    the two it provokes itself and whatever a collaborator raises. *)
Inductive exn : Type :=
  | KeyError (key : string)          (* [tag['href']] on a tag without it *)
  | AttributeError (msg : string)    (* [entry.title] on an entry without it *)
  | IndexError (msg : string)
  | Exception (msg : string).        (* any other, with its [str()] *)

(** [str(e)], as interpolated into the logged messages. *)
Definition exn_str (e : exn) : string :=
  match e with
  | KeyError key => "'" +:+ key +:+ "'"
  | AttributeError msg => msg
  | IndexError msg => msg
  | Exception msg => msg
  end.

(** What stops a computation: an [Exception], which [except Exception]
    catches, or the [SystemExit] raised by [exit(code)], which it does
    not catch. *)
Inductive signal : Type :=
  | Exc (e : exn)
  | SystemExit (code : Z).

(** ** Data model *)

(** The normalised article: the dict built by [parse_rss_feed]. *)
Record Article : Type := {
  title : string;
  link : string;
  published : string;
  source : string;
  summary : string;
}.

(** A raw feed entry as the feed parser yields it: every field may be
    missing; [source] is a nested dict with an optional [title]. *)
Record SourceDict : Type := { source_title : option string }.

Record Entry : Type := {
  entry_title : option string;
  entry_link : option string;
  entry_published : option string;
  entry_source : option SourceDict;
  entry_summary : option string;
}.

Record Feed : Type := { entries : list Entry }.

(** The parsed HTML document: tags with a name, an attribute dict and
    children, and text nodes. *)
Inductive PageElement : Type :=
  | Tag (name : string) (attrs : gmap string string) (contents : list PageElement)
  | NavigableString (s : string).

(** The response object of the HTTP collaborator: its [text] and the
    outcome of its [raise_for_status()]. *)
Record Response : Type := {
  text : string;
  raise_for_status : exn + unit;
}.

(** The dict handed to [json.dump] by [save_news_data]. *)
Record Snapshot : Type := {
  snap_date : string;
  snap_source_url : string;
  snap_articles : list Article;
}.

Inductive FileContent : Type :=
  | JsonFile (doc : Snapshot)
  | TextFile (s : string).

(** The file system: path to content. *)
Abbreviation FS := (gmap string FileContent).

(** The process state that the script acts upon. *)
Record St : Type := {
  stdout : list string;
  fs : FS;
}.

(** The collaborators.  Each may raise any [Exception]; the file-system
    operations may change the file system before they return or raise. *)
Record World : Type := {
  environ : gmap string string;
  requests_get : string → gmap string string → Z → exn + Response;
  BeautifulSoup : string → string → exn + PageElement;
  feedparser_parse : string → exn + Feed;
  (* [datetime.now(beijing_tz).strftime('%Y-%m-%d')] *)
  now_beijing_date : exn + string;
  (* [datetime.now().strftime('%Y-%m-%d %H:%M:%S')] *)
  now_local : exn + string;
  os_makedirs : string → FS → (exn + unit) * FS;
  (* [with open(path, 'w', encoding='utf-8') as f: json.dump(doc, f, ...)] *)
  open_json_dump : string → Snapshot → FS → (exn + unit) * FS;
  os_listdir : string → FS → exn + list string;
  (* [len(json.load(open(path))['articles'])] *)
  json_load_articles_len : string → FS → exn + nat;
  (* [with open(path, 'w', encoding='utf-8') as f: f.write(content)] *)
  open_write : string → string → FS → (exn + unit) * FS;
}.

(** Computations of the script: state passing with exceptions, the state
    surviving a raise. *)
Definition M (A : Type) : Type := St → (signal + A) * St.

Global Instance M_ret : MRet M := λ A x st, (inr x, st).

Global Instance M_bind : MBind M := λ A B f m st,
  match m st with
  | (inr x, st') => f x st'
  | (inl sg, st') => (inl sg, st')
  end.

(** [raise e] *)
Definition raise {A} (e : exn) : M A := λ st, (inl (Exc e), st).

(** [exit(code)] *)
Definition exit {A} (code : Z) : M A := λ st, (inl (SystemExit code), st).

(** A collaborator call without effect on the state. *)
Definition lift {A} (r : exn + A) : M A :=
  match r with
  | inl e => raise e
  | inr x => mret x
  end.

(** A file-system call. *)
Definition lift_fs {A} (op : FS → (exn + A) * FS) : M A := λ st,
  match op (fs st) with
  | (inl e, fs') => (inl (Exc e), {| stdout := stdout st; fs := fs' |})
  | (inr x, fs') => (inr x, {| stdout := stdout st; fs := fs' |})
  end.

(** [print(line)] *)
Definition print (line : string) : M unit := λ st,
  (inr tt, {| stdout := stdout st ++ [line]; fs := fs st |}).

(** [try: body  except Exception as e: handler(e)] *)
Definition try_except {A} (body : M A) (handler : exn → M A) : M A := λ st,
  match body st with
  | (inl (Exc e), st') => handler e st'
  | r => r
  end.

(** ** Configuration *)

Definition default_news_url : string :=
  "https://news.google.com/topics/CAAqJggKIiBDQkFTRWdvSUwyMHZNRGx1YlY4U0FtVnVHZ0pWVXlnQVAB?ceid=US:en&oc=3".

(** [NEWS_URL = os.getenv('NEWS_URL', <default>)] *)
Definition NEWS_URL (w : World) : string :=
  default default_news_url (environ w !! "NEWS_URL").

Definition OUTPUT_DIR : string := "news".

Definition MAX_ARTICLES : nat := 20.

(** ** Feed Resolver: [get_rss_feed_url] *)

(** The elements below [e], in document order. *)
Fixpoint descendants (e : PageElement) : list PageElement :=
  match e with
  | Tag _ _ contents =>
      (fix go (cs : list PageElement) : list PageElement :=
         match cs with
         | [] => []
         | c :: cs' => c :: descendants c ++ go cs'
         end) contents
  | NavigableString _ => []
  end.

(** Whether an element is a tag called [name] carrying every attribute
    value of [query]. *)
Definition tag_matches (name : string) (query : list (string * string))
    (e : PageElement) : bool :=
  match e with
  | Tag n attrs _ =>
      bool_decide (n = name)
      && forallb (λ kv, bool_decide (attrs !! kv.1 = Some kv.2)) query
  | NavigableString _ => false
  end.

(** [soup.find(name, query)]: the first matching tag in document order. *)
Definition find (name : string) (query : list (string * string))
    (soup : PageElement) : option PageElement :=
  head (filter (λ e, tag_matches name query e = true) (descendants soup)).

(** [tag[key]] *)
Definition getitem (e : PageElement) (key : string) : exn + string :=
  match e with
  | Tag _ attrs _ =>
      match attrs !! key with
      | Some v => inr v
      | None => inl (KeyError key)
      end
  | NavigableString _ => inl (Exception "string indices must be integers")
  end.

Definition request_headers : gmap string string :=
  {[ "User-Agent" :=
     "Mozilla/5.0 (Windows NT 10.0; Win64; x64) AppleWebKit/537.36 (KHTML, like Gecko) Chrome/91.0.4472.124 Safari/537.36" ]}.

(** The body of the [try] of [get_rss_feed_url].  A found tag is always
    truthy, so [if rss_link:] tests for [None] only. *)
Definition get_rss_feed_url_body (w : World) (topic_url : string) : M (option string) :=
  response ← lift (requests_get w topic_url request_headers 30);
  lift (raise_for_status response);;
  soup ← lift (BeautifulSoup w (text response) "html.parser");
  let rss_link := find "link" [("type", "application/rss+xml")] soup in
  match rss_link with
  | Some tag =>
      href ← lift (getitem tag "href");
      mret (Some href)
  | None =>
      mret (re_search (text response))
  end.

Definition get_rss_feed_url (w : World) (topic_url : string) : M (option string) :=
  try_except (get_rss_feed_url_body w topic_url)
    (λ e, print ("Error getting RSS URL: " +:+ exn_str e);; mret None).

(** ** Feed Normalizer: [parse_rss_feed] *)

(** [entry.<name>] on a required field *)
Definition getattr (name : string) (field : option string) : exn + string :=
  match field with
  | Some v => inr v
  | None => inl (AttributeError ("object has no attribute '" +:+ name +:+ "'"))
  end.

(** [l[0]] *)
Definition getitem0 (l : list string) : exn + string :=
  match l with
  | x :: _ => inr x
  | [] => inl (IndexError "list index out of range")
  end.

(** Lines 45-47: the cleaned source name of an entry. *)
Definition clean_source (entry : Entry) : exn + string :=
  let source :=
    match entry_source entry with
    | Some d => default EmptyString (source_title d)
    | None => EmptyString
    end in
  if Str.contains " - " source then getitem0 (Str.split " - " source)
  else inr source.

(** The body of the [for] loop: one entry to one article. *)
Definition article_of_entry (entry : Entry) : M Article :=
  source ← lift (clean_source entry);
  title ← lift (getattr "title" (entry_title entry));
  link ← lift (getattr "link" (entry_link entry));
  mret {| title := title;
          link := link;
          published := default EmptyString (entry_published entry);
          source := source;
          summary := default EmptyString (entry_summary entry) |}.

(** The [for] loop, [articles] being the list appended to. *)
Fixpoint for_entries (es : list Entry) (articles : list Article) : M (list Article) :=
  match es with
  | [] => mret articles
  | entry :: es' =>
      article ← article_of_entry entry;
      for_entries es' (articles ++ [article])
  end.

Definition parse_rss_feed_body (w : World) (rss_url : string) : M (list Article) :=
  feed ← lift (feedparser_parse w rss_url);
  for_entries (take MAX_ARTICLES (entries feed)) [].

Definition parse_rss_feed (w : World) (rss_url : string) : M (list Article) :=
  try_except (parse_rss_feed_body w rss_url)
    (λ e, print ("Error parsing RSS feed: " +:+ exn_str e);; mret []).

(** ** Persistence: [update_readme] and [save_news_data] *)

Definition newline : string := String (ascii_of_nat 10) EmptyString.

(** The first line of an item of the top-news block. *)
Definition item_head (i : nat) (article : Article) : string :=
  pretty i +:+ ". [" +:+ title article +:+ "](" +:+ link article +:+ ") - *"
  +:+ source article +:+ "*" +:+ newline.

(** The second line: [f"   > {article['summary'][:150]}...\n\n"] *)
Definition item_excerpt (article : Article) : string :=
  "   > " +:+ Str.take_chars 150 (summary article) +:+ "..." +:+ newline +:+ newline.

(** [for i, article in enumerate(<articles>, i): markdown_content += ...] *)
Fixpoint top_news_loop (i : nat) (articles : list Article)
    (markdown_content : string) : string :=
  match articles with
  | [] => markdown_content
  | article :: rest =>
      let markdown_content := markdown_content +:+ item_head i article in
      let markdown_content := markdown_content +:+ item_excerpt article in
      top_news_loop (S i) rest markdown_content
  end.

(** One row of the history table. *)
Definition history_row (date : string) (article_count : nat) (file : string) : string :=
  "| " +:+ date +:+ " | " +:+ pretty article_count +:+ " articles | [View]("
  +:+ os_path_join OUTPUT_DIR file +:+ ") |" +:+ newline.

(** [for file in <files>: if file.startswith(..) and file.endswith(..): ...] *)
Fixpoint history_loop (w : World) (files : list string)
    (markdown_content : string) : M string :=
  match files with
  | [] => mret markdown_content
  | file :: rest =>
      if Str.startswith "google-news-" file && Str.endswith ".json" file then
        let date := Str.slice_between 12 5 file in
        article_count ←
          lift_fs (λ fs, (json_load_articles_len w (os_path_join OUTPUT_DIR file) fs, fs));
        history_loop w rest (markdown_content +:+ history_row date article_count file)
      else history_loop w rest markdown_content
  end.

(** [sorted(names, reverse=True)] *)
Definition sorted_reverse (names : list string) : list string :=
  merge_sort (λ a b, String.le b a) names.

Definition update_readme_body (w : World) (articles : list Article)
    (date_str : string) : M unit :=
  let readme_path := "README.md" in
  let markdown_content := "# Google News Daily Archive" +:+ newline +:+ newline in
  now ← lift (now_local w);
  let markdown_content :=
    markdown_content +:+ "**Last Updated**: " +:+ now +:+ " (UTC)" +:+ newline +:+ newline in
  let markdown_content :=
    markdown_content +:+ "## Today's Top News (" +:+ date_str +:+ ")" +:+ newline +:+ newline in
  let markdown_content := top_news_loop 1 (take 5 articles) markdown_content in
  let markdown_content :=
    markdown_content +:+ newline +:+ "[View all articles for " +:+ date_str
    +:+ "](news/google-news-" +:+ date_str +:+ ".json)" +:+ newline +:+ newline in
  let markdown_content := markdown_content +:+ "## Historical Data" +:+ newline in
  let markdown_content := markdown_content +:+ "| Date | Articles | View |" +:+ newline in
  let markdown_content := markdown_content +:+ "|------|----------|------|" +:+ newline in
  files ← lift_fs (λ fs, (os_listdir w OUTPUT_DIR fs, fs));
  markdown_content ← history_loop w (sorted_reverse files) markdown_content;
  lift_fs (open_write w readme_path markdown_content).

Definition update_readme (w : World) (articles : list Article)
    (date_str : string) : M unit :=
  try_except (update_readme_body w articles date_str)
    (λ e, print ("Error updating README: " +:+ exn_str e)).

Definition save_news_data_body (w : World) (articles : list Article) : M unit :=
  lift_fs (os_makedirs w OUTPUT_DIR);;
  date_str ← lift (now_beijing_date w);
  let json_file := os_path_join OUTPUT_DIR ("google-news-" +:+ date_str +:+ ".json") in
  lift_fs (open_json_dump w json_file
             {| snap_date := date_str;
                snap_source_url := NEWS_URL w;
                snap_articles := articles |});;
  update_readme w articles date_str;;
  print ("Successfully saved " +:+ pretty (length articles) +:+ " articles for " +:+ date_str).

Definition save_news_data (w : World) (articles : list Article) : M unit :=
  try_except (save_news_data_body w articles)
    (λ e, print ("Error saving news data: " +:+ exn_str e)).

(** ** The driver: the [__main__] block *)

(** Truthiness of the resolver's result: [None] and the empty string are
    falsy. *)
Definition truthy_url (rss_url : option string) : bool :=
  match rss_url with
  | None => false
  | Some EmptyString => false
  | Some (String _ _) => true
  end.

Definition main (w : World) : M unit :=
  print "Starting Google News scraper...";;
  print ("Target URL: " +:+ NEWS_URL w);;
  rss_url ← get_rss_feed_url w (NEWS_URL w);
  match rss_url with
  | None | Some EmptyString =>            (* [if not rss_url:] *)
      print "Failed to find RSS feed URL";;
      exit 1
  | Some rss_url =>
      print ("Found RSS feed: " +:+ rss_url);;
      articles ← parse_rss_feed w rss_url;
      match articles with
      | [] =>                              (* [if not articles:] *)
          print "No articles found in RSS feed";;
          exit 1
      | _ :: _ =>
          print ("Found " +:+ pretty (length articles) +:+ " articles");;
          save_news_data w articles;;
          print "Scraping completed successfully"
      end
  end.

(** The exit status of the interpreter: 0 when the script runs to its
    end, the argument of [exit] when it is called, 1 after an uncaught
    exception. *)
Definition exit_code {A} (r : signal + A) : Z :=
  match r with
  | inr _ => 0
  | inl (SystemExit code) => code
  | inl (Exc _) => 1
  end.

(** A run of the script from an initial state: exit status and final
    state. *)
Definition run (w : World) (st : St) : Z * St :=
  let (r, st') := main w st in (exit_code r, st').

(** ** Vocabulary of the statements *)

(** [sub] occurs in [s]. *)
Definition occurs (sub s : string) : Prop :=
  ∃ before after, s = before +:+ sub +:+ after.

(** [before] is the text of [s] up to the first occurrence of [sep]. *)
Definition text_before_first (sep s before : string) : Prop :=
  (∃ after, s = before +:+ sep +:+ after) ∧
  ∀ before' after', s = before' +:+ sep +:+ after' →
    String.length before ≤ String.length before'.

(** [rest] does not start in the middle of a character. *)
Definition at_char_boundary (rest : string) : Prop :=
  match rest with
  | EmptyString => True
  | String c _ => Str.is_continuation c = false
  end.

(** [p] is made of the first [n] characters of [s] (of all of them when
    [s] has fewer): a prefix of [s] that ends where a character ends and
    holds [min(n, len(s))] characters. *)
Definition first_chars (n : nat) (s p : string) : Prop :=
  (∃ rest, s = p +:+ rest ∧ at_char_boundary rest) ∧
  Str.char_count p = n `min` Str.char_count s.

(** The nested source title of an entry, when there is one. *)
Definition nested_source_title (entry : Entry) : option string :=
  entry_source entry ≫= source_title.

(** An entry carrying both required fields. *)
Definition well_formed (entry : Entry) : Prop :=
  is_Some (entry_title entry) ∧ is_Some (entry_link entry).

(** The record [a] is the normalisation of [entry]. *)
Definition normalises (entry : Entry) (a : Article) : Prop :=
  entry_title entry = Some (title a) ∧
  entry_link entry = Some (link a) ∧
  published a = default EmptyString (entry_published entry) ∧
  summary a = default EmptyString (entry_summary entry) ∧
  clean_source entry = inr (source a).

(** A link element of type [application/rss+xml]. *)
Definition is_rss_link (e : PageElement) : Prop :=
  tag_matches "link" [("type", "application/rss+xml")] e = true.

(** The [href] attribute of an element, when it has one. *)
Definition href_of (e : PageElement) : option string :=
  match e with
  | Tag _ attrs _ => attrs !! "href"
  | NavigableString _ => None
  end.

(** [tag] is the first link element of type [application/rss+xml] of the
    document, in document order. *)
Definition first_rss_link (soup tag : PageElement) : Prop :=
  ∃ before after,
    descendants soup = before ++ tag :: after ∧
    is_rss_link tag ∧
    ∀ e, e ∈ before → ¬ is_rss_link e.

(** The page at [topic_url] was fetched with a success status and parsed:
    [body] is its text and [soup] its parse. *)
Definition fetched (w : World) (topic_url body : string) (soup : PageElement) : Prop :=
  ∃ response,
    requests_get w topic_url request_headers 30 = inr response ∧
    raise_for_status response = inr tt ∧
    text response = body ∧
    BeautifulSoup w body "html.parser" = inr soup.

(** [m] is a feed URL starting at offset [n] of [body]: the literal
    prefix followed by a non-empty identifier free of quote characters. *)
Definition feed_url_at (body : string) (n : nat) (m : string) : Prop :=
  ∃ before id rest,
    body = before +:+ m +:+ rest ∧ String.length before = n ∧
    m = rss_topics_prefix +:+ id ∧ id ≠ EmptyString ∧
    Str.all not_quote id = true.

(** What follows the match ends it: a quote character, or nothing at all. *)
Definition ends_at_quote_or_eof (body : string) (n : nat) (m : string) : Prop :=
  ∃ before rest,
    body = before +:+ m +:+ rest ∧ String.length before = n ∧
    match rest with
    | EmptyString => True
    | String q _ => is_quote q = true
    end.

(** What follows the match is a quote character. *)
Definition ends_at_quote (body : string) (n : nat) (m : string) : Prop :=
  ∃ before q rest,
    body = before +:+ m +:+ String q rest ∧ String.length before = n ∧
    is_quote q = true.

(** The outcome of the two stages, which does not depend on the state
    they are run from. *)
Definition resolves_to (w : World) (r : option string) : Prop :=
  ∀ st, (get_rss_feed_url w (NEWS_URL w) st).1 = inr r.

Definition extracts (w : World) (rss_url : string) (articles : list Article) : Prop :=
  ∀ st, (parse_rss_feed w rss_url st).1 = inr articles.


(** A computation built from collaborator results alone: it returns a
    value or raises an [Exception], the same from every state, and leaves
    the state as it found it. *)
Definition quiet {A} (m : M A) : Prop :=
  ∃ r : exn + A, ∀ st, m st = lift r st.

(** The state after one more printed line. *)
Definition say (line : string) (st : St) : St :=
  {| stdout := stdout st ++ [line]; fs := fs st |}.

(** A computation that never calls [exit]: it returns or raises an
    [Exception]. *)
Definition catchable {A} (m : M A) : Prop :=
  ∀ st, (∃ x st', m st = (inr x, st')) ∨ (∃ e st', m st = (inl (Exc e), st')).

(** A computation that always returns. *)
Definition total {A} (m : M A) : Prop :=
  ∀ st, ∃ x st', m st = (inr x, st').

(** ** Sample inputs *)

Definition st0 : St := {| stdout := []; fs := ∅ |}.

(** A world from the outcomes of the network collaborators; the clock
    answers a fixed date, and the disk either works as a plain store or
    refuses to write the snapshot. *)
Definition sample_world (env : gmap string string) (page : exn + Response)
    (soup : exn + PageElement) (feed : exn + Feed) (disk_full : bool) : World :=
  {| environ := env;
     requests_get := λ _ _ _, page;
     BeautifulSoup := λ _ _, soup;
     feedparser_parse := λ _, feed;
     now_beijing_date := inr "2024-05-01";
     now_local := inr "2024-04-30 23:10:00";
     os_makedirs := λ _ fs, (inr tt, fs);
     open_json_dump := λ path doc fs,
       if disk_full then (inl (Exception "No space left on device"), fs)
       else (inr tt, <[path := JsonFile doc]> fs);
     os_listdir := λ _ fs, inr [];
     json_load_articles_len := λ path fs,
       match fs !! path with
       | Some (JsonFile doc) => inr (length (snap_articles doc))
       | _ => inl (Exception "Expecting value")
       end;
     open_write := λ path content fs, (inr tt, <[path := TextFile content]> fs) |}.

Definition sample_entry (t l : option string) (src : option string) : Entry :=
  {| entry_title := t;
     entry_link := l;
     entry_published := None;
     entry_source := Some {| source_title := src |};
     entry_summary := Some "<b>Markets</b> rose" |}.

Definition reuters_entry : Entry :=
  sample_entry (Some "Headline") (Some "https://example.org/a")
    (Some "Reuters - Asia Edition").

Definition good_entry : Entry := reuters_entry.

(** The normalisation of [good_entry]. *)
Definition good_article : Article :=
  {| title := "Headline";
     link := "https://example.org/a";
     published := EmptyString;
     source := "Reuters";
     summary := "<b>Markets</b> rose" |}.

Definition untitled_entry : Entry :=
  sample_entry None (Some "https://example.org/b") (Some "AP").

Definition ok_page (body : string) : exn + Response :=
  inr {| text := body; raise_for_status := inr tt |}.

Definition rss_link (attrs : gmap string string) : PageElement :=
  Tag "link" (<["type" := "application/rss+xml"]> attrs) [].

Definition document (elements : list PageElement) : PageElement :=
  Tag "[document]" ∅ [Tag "html" ∅ [Tag "head" ∅ elements]].

Definition feed_of (es : list Entry) : exn + Feed := inr {| entries := es |}.

Definition feed_a : string := "https://news.google.com/rss/topics/AAA".
Definition feed_b : string := "https://news.google.com/rss/topics/BBB".

(** Two feed links in one page. *)
Definition two_links_soup : PageElement :=
  document [rss_link {[ "href" := feed_a ]}; rss_link {[ "href" := feed_b ]}].

(** A feed link followed by a feed link without [href]. *)
Definition link_then_bare_soup : PageElement :=
  document [rss_link {[ "href" := feed_a ]}; rss_link ∅].

(** A page whose only feed link has no [href]. *)
Definition bare_link_soup : PageElement :=
  document [Tag "meta" {[ "charset" := "utf-8" ]} []; rss_link ∅].

(** A page with a stylesheet link and a feed link. *)
Definition one_link_soup : PageElement :=
  document [Tag "link" {[ "type" := "text/css"; "href" := "/style.css" ]} [];
            rss_link {[ "href" := feed_a ]};
            Tag "title" ∅ [NavigableString "Topic"]].

(** A page without any feed link. *)
Definition no_link_soup : PageElement :=
  document [Tag "title" ∅ [NavigableString "Topic"]].

(** A body quoting a feed URL, and a body ending in one. *)
Definition quoted_body : string :=
  "<a href=" +:+ String double_quote feed_b +:+ String double_quote ">feed</a>".

Definition unquoted_body : string := "see https://news.google.com/rss/topics/ABC123".

Definition page_world (body : string) (soup : PageElement) : World :=
  sample_world ∅ (ok_page body) (inr soup) (feed_of [good_entry]) false.

(** A world whose page carries one feed link and whose feed has the given
    entries; the disk is full or not. *)
Definition feed_world (es : list Entry) (disk_full : bool) : World :=
  sample_world ∅ (ok_page quoted_body) (inr one_link_soup) (feed_of es) disk_full.

(** A world whose topic page cannot be fetched. *)
Definition offline_world : World :=
  sample_world ∅ (inl (Exception "Connection refused")) (inr no_link_soup)
    (feed_of [good_entry]) false.

(** ** Further vocabulary *)

(** The test of the history loop on a file name. *)
Definition is_snapshot_name (file : string) : bool :=
  Str.startswith "google-news-" file && Str.endswith ".json" file.

(** The name of the snapshot of a day, and its path as [save_news_data]
    builds it. *)
Definition snapshot_name (date_str : string) : string :=
  "google-news-" +:+ date_str +:+ ".json".

Definition snapshot_path (date_str : string) : string :=
  os_path_join OUTPUT_DIR (snapshot_name date_str).

(** The concatenation of a list of strings. *)
Definition concat_all (pieces : list string) : string :=
  foldr String.app EmptyString pieces.

(** An entry without one of the required fields. *)
Definition lacks_required_field (entry : Entry) : Prop :=
  entry_title entry = None ∨ entry_link entry = None.

(** A page answered with an error status, though its body holds a feed
    link and a feed URL. *)
Definition http_error_world : World :=
  sample_world ∅
    (inr {| text := quoted_body;
            raise_for_status := inl (Exception "404 Client Error") |})
    (inr one_link_soup) (feed_of [good_entry]) false.

(** A world whose feed parser raises. *)
Definition parser_down_world : World :=
  sample_world ∅ (ok_page quoted_body) (inr one_link_soup)
    (inl (Exception "feed unreachable")) false.


(** A [news] directory with the snapshots of two days. *)
Definition two_days_fs : FS :=
  {[ "news/google-news-2024-05-01.json" :=
       JsonFile {| snap_date := "2024-05-01";
                   snap_source_url := default_news_url;
                   snap_articles := [good_article; good_article] |};
     "news/google-news-2024-04-30.json" :=
       JsonFile {| snap_date := "2024-04-30";
                   snap_source_url := default_news_url;
                   snap_articles := [good_article] |} ]}.

Definition two_days_st : St := {| stdout := []; fs := two_days_fs |}.


(** A page whose feed link has an empty [href]. *)
Definition empty_href_soup : PageElement :=
  document [rss_link {[ "href" := EmptyString ]}].

(** A world whose listing names the snapshots of two days, one of which
    is not in the file system. *)
Definition stale_listing_world : World :=
  {| environ := ∅;
     requests_get := requests_get (feed_world [good_entry] false);
     BeautifulSoup := BeautifulSoup (feed_world [good_entry] false);
     feedparser_parse := feedparser_parse (feed_world [good_entry] false);
     now_beijing_date := now_beijing_date (feed_world [good_entry] false);
     now_local := now_local (feed_world [good_entry] false);
     os_makedirs := os_makedirs (feed_world [good_entry] false);
     open_json_dump := open_json_dump (feed_world [good_entry] false);
     os_listdir := λ _ _, inr ["google-news-2024-05-01.json"; "google-news-2024-04-29.json"];
     json_load_articles_len := json_load_articles_len (feed_world [good_entry] false);
     open_write := open_write (feed_world [good_entry] false) |}.

(** A world whose output directory cannot be created. *)
Definition read_only_world : World :=
  {| environ := ∅;
     requests_get := requests_get (feed_world [good_entry] false);
     BeautifulSoup := BeautifulSoup (feed_world [good_entry] false);
     feedparser_parse := feedparser_parse (feed_world [good_entry] false);
     now_beijing_date := now_beijing_date (feed_world [good_entry] false);
     now_local := now_local (feed_world [good_entry] false);
     os_makedirs := λ _ fs, (inl (Exception "Read-only file system"), fs);
     open_json_dump := open_json_dump (feed_world [good_entry] false);
     os_listdir := os_listdir (feed_world [good_entry] false);
     json_load_articles_len := json_load_articles_len (feed_world [good_entry] false);
     open_write := open_write (feed_world [good_entry] false) |}.


(** ** The layout of the README *)

(** What [update_readme] puts before the top block. *)
Definition readme_header (now date_str : string) : string :=
  "# Google News Daily Archive" +:+ newline +:+ newline
  +:+ "**Last Updated**: " +:+ now +:+ " (UTC)" +:+ newline +:+ newline
  +:+ "## Today's Top News (" +:+ date_str +:+ ")" +:+ newline +:+ newline.

(** What it puts between the top block and the rows of the history
    table. *)
Definition readme_links (date_str : string) : string :=
  newline +:+ "[View all articles for " +:+ date_str
  +:+ "](news/google-news-" +:+ date_str +:+ ".json)" +:+ newline +:+ newline
  +:+ "## Historical Data" +:+ newline
  +:+ "| Date | Articles | View |" +:+ newline
  +:+ "|------|----------|------|" +:+ newline.

(** The item of the article of index [k] in the top block. *)
Definition top_news_item (k : nat) (article : Article) : string :=
  item_head (S k) article +:+ item_excerpt article.

(** The rows of the history table for a list of file names. *)
Definition history_rows (count : string → nat) (names : list string) : list string :=
  (λ file, history_row (Str.slice_between 12 5 file) (count file) file) <$> names.

(** [update_readme], once its content is built: the write of the README,
    an exception of which is printed. *)
Definition write_readme (w : World) (content : string) : M unit :=
  try_except (lift_fs (open_write w "README.md" content))
    (λ e, print ("Error updating README: " +:+ exn_str e)).



(** An environment that sets the topic URL, and a variable that the
    script does not read. *)
Definition override_env : gmap string string :=
  {[ "NEWS_URL" := "https://example.org/topic"; "MAX_ARTICLES" := "5" ]}.

Definition override_world : World :=
  sample_world override_env (ok_page quoted_body) (inr one_link_soup)
    (feed_of (replicate 6 good_entry)) false.

(** A summary of sixty characters of three bytes each. *)
Definition wide_summary : string :=
  concat_all (replicate 60 "中").

Definition wide_article : Article :=
  {| title := "Headline";
     link := "https://example.org/a";
     published := EmptyString;
     source := "Reuters";
     summary := wide_summary |}.


(** A world whose listing names the two snapshots of [two_days_fs],
    oldest first, and a file that is no snapshot. *)
Definition two_days_world : World :=
  {| environ := ∅;
     requests_get := requests_get (feed_world [good_entry] false);
     BeautifulSoup := BeautifulSoup (feed_world [good_entry] false);
     feedparser_parse := feedparser_parse (feed_world [good_entry] false);
     now_beijing_date := now_beijing_date (feed_world [good_entry] false);
     now_local := now_local (feed_world [good_entry] false);
     os_makedirs := os_makedirs (feed_world [good_entry] false);
     open_json_dump := open_json_dump (feed_world [good_entry] false);
     os_listdir := λ _ _, inr ["google-news-2024-04-30.json"; "notes.txt";
                               "google-news-2024-05-01.json"];
     json_load_articles_len := json_load_articles_len (feed_world [good_entry] false);
     open_write := open_write (feed_world [good_entry] false) |}.

(** The number of articles of the snapshots of [two_days_fs], by file
    name. *)
Definition two_days_count (file : string) : nat :=
  if decide (file = "google-news-2024-05-01.json") then 2 else 1.




(** ** Strings *)

Section StringFacts.

Implicit Types s t p sub sep : string.

Lemma str_app_nil_l s : EmptyString +:+ s = s.
Proof. reflexivity. Qed.

Lemma str_app_cons c s t : String c s +:+ t = String c (s +:+ t).
Proof. reflexivity. Qed.

Lemma str_app_nil_r s : s +:+ EmptyString = s.
Proof. induction s as [|c s IH]; [done|]. by rewrite str_app_cons, IH. Qed.

Lemma str_app_assoc s t u : (s +:+ t) +:+ u = s +:+ t +:+ u.
Proof. induction s as [|c s IH]; [done|]. by rewrite !str_app_cons, IH. Qed.

Lemma str_length_app s t :
  String.length (s +:+ t) = String.length s + String.length t.
Proof. induction s as [|c s IH]; [done|]. rewrite str_app_cons. simpl. by rewrite IH. Qed.

Lemma startswith_spec p s :
  Str.startswith p s = true ↔ ∃ rest, s = p +:+ rest.
Proof.
  revert s. induction p as [|a p IH]; intros s; simpl.
  - split; [intros _; by exists s | done].
  - destruct s as [|b s].
    + split; [done | intros [rest Hrest]; by rewrite str_app_cons in Hrest].
    + case_decide as Hab.
      * subst b. rewrite IH. split; intros [rest Hrest]; exists rest.
        -- by rewrite str_app_cons, Hrest.
        -- rewrite str_app_cons in Hrest. by simplify_eq.
      * split; [done | intros [rest Hrest]].
        rewrite str_app_cons in Hrest. by simplify_eq.
Qed.

Lemma startswith_drop p s :
  Str.startswith p s = true → s = p +:+ Str.drop (String.length p) s.
Proof.
  intros [rest ->]%startswith_spec. f_equal.
  induction p as [|a p IH]; [done|]. by rewrite str_app_cons.
Qed.

Lemma contains_spec sub s : Str.contains sub s = true ↔ occurs sub s.
Proof.
  induction s as [|c s IH]; simpl.
  - rewrite orb_false_r, startswith_spec. split.
    + intros [rest Hrest]. by exists EmptyString, rest.
    + intros ([|b before] & after & Heq); [by exists after|].
      by rewrite str_app_cons in Heq.
  - rewrite orb_true_iff, startswith_spec, IH. split.
    + intros [[rest Hrest] | (before & after & Hs)].
      * by exists EmptyString, rest.
      * exists (String c before), after. by rewrite str_app_cons, Hs.
    + intros ([|b before] & after & Heq).
      * left. by exists after.
      * right. rewrite str_app_cons in Heq. simplify_eq. by exists before, after.
Qed.

Lemma str_take_drop n s : s = Str.take n s +:+ Str.drop n s.
Proof.
  revert s. induction n as [|n IH]; intros [|c s]; simpl; try done.
  by rewrite str_app_cons, <-IH.
Qed.

Lemma str_length_take n s : String.length (Str.take n s) = n `min` String.length s.
Proof. revert s. induction n as [|n IH]; intros [|c s]; simpl; auto. Qed.

Lemma str_take_short n s : String.length s ≤ n → Str.take n s = s.
Proof.
  revert s. induction n as [|n IH]; intros [|c s]; simpl; try done; [lia|].
  intros ?. f_equal. apply IH. lia.
Qed.

Lemma take_chars_first_chars n s : first_chars n s (Str.take_chars n s).
Proof.
  revert n. induction s as [|c s IH]; intros n.
  - split; [by exists EmptyString | by destruct n].
  - simpl. destruct (Str.is_continuation c) eqn:Hc.
    + destruct (IH n) as [(rest & Hs & Hrest) Hcount]. split.
      * exists rest. by rewrite str_app_cons, <-Hs.
      * simpl. by rewrite Hc.
    + destruct n as [|n].
      * split; [|done]. exists (String c s). by split.
      * destruct (IH n) as [(rest & Hs & Hrest) Hcount]. split.
        -- exists rest. by rewrite str_app_cons, <-Hs.
        -- simpl. rewrite Hc, Hcount. lia.
Qed.

Lemma take_chars_short n s : Str.char_count s ≤ n → Str.take_chars n s = s.
Proof.
  revert n. induction s as [|c s IH]; intros n; simpl; [done|].
  destruct (Str.is_continuation c); intros Hn.
  - f_equal. by apply IH.
  - destruct n as [|n]; [lia|]. f_equal. apply IH. lia.
Qed.

(** The first piece of a split is the text before the first occurrence
    of the separator, or the whole string when there is none. *)
Lemma split_go_head sep cur s :
  if Str.contains sep s
  then ∃ before pieces, text_before_first sep s before ∧
         Str.split_go sep 0 cur s = (cur +:+ before) :: pieces
  else Str.split_go sep 0 cur s = [cur +:+ s].
Proof.
  revert cur. induction s as [|c s IH]; intros cur.
  - simpl. rewrite orb_false_r. destruct (Str.startswith sep EmptyString) eqn:Hsw.
    + apply startswith_spec in Hsw as [rest Hrest].
      exists EmptyString, []. rewrite str_app_nil_r. split; [|done].
      split; [by exists rest | intros; simpl; lia].
    + by rewrite str_app_nil_r.
  - cbn [Str.contains Str.split_go].
    destruct (Str.startswith sep (String c s)) eqn:Hsw; cbn [orb].
    + apply startswith_spec in Hsw as [rest Hrest].
      exists EmptyString, (Str.split_go sep (String.length sep - 1) EmptyString s).
      rewrite str_app_nil_r. split; [|done].
      split; [by exists rest | intros; simpl; lia].
    + specialize (IH (cur +:+ String c EmptyString)).
      destruct (Str.contains sep s).
      * destruct IH as (before & pieces & [[after Hs] Hmin] & Hsplit).
        exists (String c before), pieces. split.
        -- split; [exists after; by rewrite str_app_cons, Hs|].
           intros [|b before'] after' Heq.
           ++ assert (Str.startswith sep (String c s) = true) as Hsw'
                by (apply startswith_spec; by exists after').
              congruence.
           ++ rewrite str_app_cons in Heq. injection Heq as _ Heq.
              apply Hmin in Heq. simpl. lia.
        -- by rewrite Hsplit, str_app_assoc.
      * by rewrite IH, str_app_assoc.
Qed.

Lemma span_spec (f : ascii → bool) s :
  ∃ rest, s = Str.span f s +:+ rest ∧
    Str.all f (Str.span f s) = true ∧
    match rest with
    | EmptyString => True
    | String c _ => f c = false
    end.
Proof.
  induction s as [|c s (rest & Hs & Hall & Hrest)]; simpl.
  - by exists EmptyString.
  - destruct (f c) eqn:Hc.
    + exists rest. rewrite str_app_cons, <-Hs. simpl. by rewrite Hc, Hall.
    + by exists (String c s).
Qed.

End StringFacts.

(** ** The effect monad *)

Lemma bind_run {A B} (m : M A) (f : A → M B) st :
  (m ≫= f) st =
  match m st with
  | (inr x, st') => f x st'
  | (inl sg, st') => (inl sg, st')
  end.
Proof. reflexivity. Qed.

Lemma lift_inr {A} (x : A) st : lift (inr x) st = (inr x, st).
Proof. reflexivity. Qed.

Lemma lift_inl {A} (e : exn) st : lift (A:=A) (inl e) st = (inl (Exc e), st).
Proof. reflexivity. Qed.

Lemma quiet_ret {A} (x : A) : quiet (mret x).
Proof. by exists (inr x). Qed.

Lemma quiet_lift {A} (r : exn + A) : quiet (lift r).
Proof. by exists r. Qed.

Lemma quiet_bind {A B} (m : M A) (f : A → M B) :
  quiet m → (∀ x, quiet (f x)) → quiet (m ≫= f).
Proof.
  intros [[e|x] Hm] Hf.
  - exists (inl e). intros st. by rewrite bind_run, Hm.
  - destruct (Hf x) as [r Hr]. exists r. intros st. by rewrite bind_run, Hm, lift_inr.
Qed.

Lemma quiet_cases {A} (m : M A) st :
  quiet m → (∃ x, m st = (inr x, st)) ∨ (∃ e, m st = (inl (Exc e), st)).
Proof. intros [[e|x] Hm]; [right; exists e | left; exists x]; apply Hm. Qed.

Create HintDb quiet.
#[local] Hint Resolve quiet_ret quiet_lift quiet_bind : quiet.

(** [try ... except Exception] around a quiet body whose handler logs one
    line and returns [fallback]. *)
Lemma try_except_quiet {A} (body : M A) (msg : exn → string) (fallback : A) st :
  quiet body →
  (∃ x, body st = (inr x, st) ∧
        try_except body (λ e, print (msg e);; mret fallback) st = (inr x, st)) ∨
  (∃ e, body st = (inl (Exc e), st) ∧
        try_except body (λ e, print (msg e);; mret fallback) st
        = (inr fallback, {| stdout := stdout st ++ [msg e]; fs := fs st |})).
Proof.
  intros Hq. unfold try_except.
  destruct (quiet_cases _ st Hq) as [[x Hx] | [e He]]; [left; exists x | right; exists e].
  - by rewrite Hx.
  - by rewrite He.
Qed.

(** ** Feed Normalizer *)

Lemma clean_source_total entry : ∃ s, clean_source entry = inr s.
Proof.
  unfold clean_source.
  set (src := match entry_source entry with Some d => _ | None => _ end).
  pose proof (split_go_head " - " EmptyString src) as Hsplit.
  unfold Str.split. destruct (Str.contains " - " src); [|by eexists].
  destruct Hsplit as (before & pieces & _ & ->). by eexists.
Qed.

Lemma quiet_article_of_entry entry : quiet (article_of_entry entry).
Proof. unfold article_of_entry. auto 10 with quiet. Qed.

Lemma article_of_entry_ok entry st :
  well_formed entry →
  ∃ a, article_of_entry entry st = (inr a, st) ∧ normalises entry a.
Proof.
  intros [[t Ht] [l Hl]]. destruct (clean_source_total entry) as [s Hs].
  unfold article_of_entry. rewrite Hs, Ht, Hl. eexists. split; [reflexivity|].
  by repeat split.
Qed.

Lemma article_of_entry_raises entry st :
  entry_title entry = None ∨ entry_link entry = None →
  ∃ e, article_of_entry entry st = (inl (Exc e), st).
Proof.
  intros Hmiss. destruct (clean_source_total entry) as [s Hs].
  unfold article_of_entry. rewrite Hs.
  destruct (entry_title entry) as [t|] eqn:Ht; [|by eexists].
  destruct Hmiss as [? | ->]; [done | by eexists].
Qed.

Lemma quiet_for_entries es articles : quiet (for_entries es articles).
Proof.
  revert articles. induction es as [|entry es IH]; intros articles; simpl.
  - apply quiet_ret.
  - apply quiet_bind; [apply quiet_article_of_entry | auto].
Qed.

(** The loop over well-formed entries appends their normalisations, one
    for one and in order. *)
Lemma for_entries_ok es articles st :
  Forall well_formed es →
  ∃ new, for_entries es articles st = (inr (articles ++ new), st) ∧
         Forall2 normalises es new.
Proof.
  intros Hwf. revert articles.
  induction Hwf as [|entry es Hentry _ IH]; intros articles.
  - exists []. by rewrite (right_id_L [] (++)).
  - destruct (article_of_entry_ok entry st Hentry) as (a & Ha & Hnorm).
    destruct (IH (articles ++ [a])) as (new & Hnew & Hall).
    exists (a :: new). split; [|by constructor].
    cbn [for_entries]. rewrite bind_run, Ha, Hnew. by rewrite <-(assoc_L (++)).
Qed.

(** One entry without a required field makes the loop raise. *)
Lemma for_entries_raises es articles st :
  Exists (λ entry, entry_title entry = None ∨ entry_link entry = None) es →
  ∃ e, for_entries es articles st = (inl (Exc e), st).
Proof.
  intros Hex. revert articles.
  induction es as [|entry es IH]; intros articles; [by inversion Hex|].
  cbn [for_entries]. rewrite bind_run.
  apply Exists_cons in Hex as [Hmiss | Hex].
  - destruct (article_of_entry_raises entry st Hmiss) as [e ->]. by eexists.
  - destruct (quiet_cases _ st (quiet_article_of_entry entry)) as [[a ->] | [e ->]];
      [by apply IH | by eexists].
Qed.

Lemma quiet_parse_rss_feed_body w rss_url : quiet (parse_rss_feed_body w rss_url).
Proof.
  unfold parse_rss_feed_body.
  apply quiet_bind; [apply quiet_lift | intros; apply quiet_for_entries].
Qed.

(** The [try]/[except] of [parse_rss_feed]: either the body returned and
    its result is passed on, or it raised and the empty list is returned
    after one logged line. *)
Lemma parse_rss_feed_cases w rss_url st :
  (∃ articles, parse_rss_feed_body w rss_url st = (inr articles, st) ∧
               parse_rss_feed w rss_url st = (inr articles, st)) ∨
  (∃ e, parse_rss_feed_body w rss_url st = (inl (Exc e), st) ∧
        parse_rss_feed w rss_url st =
        (inr [], {| stdout := stdout st ++ ["Error parsing RSS feed: " +:+ exn_str e];
                    fs := fs st |})).
Proof.
  apply (try_except_quiet _ (λ e, "Error parsing RSS feed: " +:+ exn_str e)).
  apply quiet_parse_rss_feed_body.
Qed.

(** C1, as stated, fails: a feed of one entry that has no title yields no
    record at all, not [min(1, 20)] records. *)
Lemma parse_rss_feed_cap_counterexample :
  ¬ ∀ w rss_url st feed,
      feedparser_parse w rss_url = inr feed →
      ∃ articles, (parse_rss_feed w rss_url st).1 = inr articles ∧
                  length articles = length (entries feed) `min` 20.
Proof.
  intros Hclaim.
  pose (w := sample_world ∅ (ok_page EmptyString) (inr (document []))
               (feed_of [untitled_entry]) false).
  destruct (Hclaim w "https://feed" st0 {| entries := [untitled_entry] |} eq_refl)
    as (articles & Hres & Hlen).
  vm_compute in Hres. injection Hres as <-. discriminate Hlen.
Qed.

(** C1 (amended): for every feed whose parse yields N entries, the first
    [min(N, 20)] of which all carry [title] and [link], [parse_rss_feed]
    returns exactly [min(N, 20)] records, 20 being the cap, and the i-th
    record is the normalisation of the i-th entry of the feed. *)
Theorem parse_rss_feed_cap_and_order w rss_url st feed :
  feedparser_parse w rss_url = inr feed →
  Forall well_formed (take MAX_ARTICLES (entries feed)) →
  ∃ articles,
    parse_rss_feed w rss_url st = (inr articles, st) ∧
    MAX_ARTICLES = 20 ∧
    length articles = length (entries feed) `min` 20 ∧
    ∀ i entry, i < 20 → entries feed !! i = Some entry →
      ∃ a, articles !! i = Some a ∧ normalises entry a.
Proof.
  intros Hfeed Hwf.
  destruct (for_entries_ok _ [] st Hwf) as (articles & Hloop & Hall).
  assert (parse_rss_feed_body w rss_url st = (inr articles, st)) as Hbody.
  { unfold parse_rss_feed_body. by rewrite bind_run, Hfeed, lift_inr. }
  exists articles. split; [|split; [done|split]].
  - destruct (parse_rss_feed_cases w rss_url st) as [(a & Ha & ->) | (e & He & _)];
      congruence.
  - apply Forall2_length in Hall. rewrite length_take in Hall.
    unfold MAX_ARTICLES in Hall. lia.
  - intros i entry Hi Hlook.
    eapply Forall2_lookup_l in Hall as (a & Ha & Hnorm); [by exists a|].
    by rewrite lookup_take_lt.
Qed.

Lemma parse_rss_feed_cap_and_order_witness :
  ∃ articles,
    parse_rss_feed
      (sample_world ∅ (ok_page EmptyString) (inr (document []))
         (feed_of (replicate 23 good_entry)) false) "https://feed" st0
    = (inr articles, st0) ∧
    MAX_ARTICLES = 20 ∧
    length articles = length (replicate 23 good_entry) `min` 20 ∧
    ∀ i entry, i < 20 → replicate 23 good_entry !! i = Some entry →
      ∃ a, articles !! i = Some a ∧ normalises entry a.
Proof.
  apply (parse_rss_feed_cap_and_order _ _ _ {| entries := replicate 23 good_entry |}).
  - reflexivity.
  - apply Forall_take, Forall_replicate. split; eexists; reflexivity.
Defined.

(** C5: [parse_rss_feed] returns a list from every state and for every
    behaviour of the feed parser; when its body fails the list is empty;
    in particular, when one of the entries taken has no [title] or no
    [link], the result is the empty list and not the records of the
    well-formed entries. *)
Theorem parse_rss_feed_never_raises w rss_url st :
  ∃ articles st',
    parse_rss_feed w rss_url st = (inr articles, st') ∧
    (∀ sg st1, parse_rss_feed_body w rss_url st = (inl sg, st1) → articles = []) ∧
    (∀ feed entry,
       feedparser_parse w rss_url = inr feed →
       entry ∈ take MAX_ARTICLES (entries feed) →
       entry_title entry = None ∨ entry_link entry = None →
       articles = []).
Proof.
  destruct (parse_rss_feed_cases w rss_url st) as [(a & Ha & Hp) | (e & He & Hp)].
  - exists a, st. split; [done|]. split; [intros; congruence|].
    intros feed entry Hfeed Hin Hmiss.
    destruct (for_entries_raises (take MAX_ARTICLES (entries feed)) [] st) as [e He].
    { apply Exists_exists. by exists entry. }
    unfold parse_rss_feed_body in Ha.
    rewrite bind_run, Hfeed, lift_inr in Ha. congruence.
  - eexists [], _. split; [done|]. by split.
Qed.

Lemma parse_rss_feed_never_raises_witness :
  ∃ articles st',
    parse_rss_feed
      (sample_world ∅ (ok_page EmptyString) (inr (document []))
         (feed_of [good_entry; untitled_entry; good_entry]) false) "https://feed" st0
    = (inr articles, st') ∧ articles = [].
Proof.
  destruct (parse_rss_feed_never_raises
              (sample_world ∅ (ok_page EmptyString) (inr (document []))
                 (feed_of [good_entry; untitled_entry; good_entry]) false)
              "https://feed" st0) as (articles & st' & Hrun & _ & Hbatch).
  exists articles, st'. split; [exact Hrun|].
  apply (Hbatch {| entries := [good_entry; untitled_entry; good_entry] |} untitled_entry).
  - reflexivity.
  - apply list_elem_of_In. right. left. reflexivity.
  - left. reflexivity.
Defined.

(** Lines 45-47 read the nested source title and nothing else. *)
Lemma clean_source_eq entry :
  clean_source entry =
  let source := default EmptyString (nested_source_title entry) in
  if Str.contains " - " source then getitem0 (Str.split " - " source)
  else inr source.
Proof.
  unfold clean_source, nested_source_title.
  by destruct (entry_source entry) as [[[t|]]|].
Qed.

(** The cleaned source of an entry, by cases on its nested source
    title. *)
Lemma clean_source_cases :
  (∀ entry,
     match nested_source_title entry with
     | Some t =>
         (occurs " - " t →
          ∃ before, text_before_first " - " t before ∧
                    clean_source entry = inr before) ∧
         (¬ occurs " - " t → clean_source entry = inr t)
     | None => clean_source entry = inr EmptyString
     end) ∧
  (∀ entry,
     nested_source_title entry = Some "Reuters - Asia Edition" →
     clean_source entry = inr "Reuters").
Proof.
  split; intros entry.
  - rewrite clean_source_eq. destruct (nested_source_title entry) as [t|]; [|done].
    cbn [default from_option id]. unfold Str.split.
    pose proof (split_go_head " - " EmptyString t) as Hsplit.
    pose proof (contains_spec " - " t) as Hocc.
    destruct (Str.contains " - " t).
    + destruct Hsplit as (before & pieces & Hfirst & ->).
      split; [intros _; by exists before | intros []; by apply Hocc].
    + split; [|done]. intros Ht%Hocc. discriminate Ht.
  - intros Ht. rewrite clean_source_eq, Ht. reflexivity.
Qed.


(** ** The fallback scan *)

Lemma str_drop_app p r : Str.drop (String.length p) (p +:+ r) = r.
Proof. induction p as [|a p IH]; [done|]. by rewrite str_app_cons. Qed.

Lemma str_all_app f a b : Str.all f (a +:+ b) = Str.all f a && Str.all f b.
Proof.
  induction a as [|c a IH]; [done|].
  rewrite str_app_cons. simpl. by rewrite IH, andb_assoc.
Qed.

Lemma length_zero_empty s : String.length s = 0 → s = EmptyString.
Proof. by destruct s. Qed.

Lemma re_search_eq s :
  re_search s =
  match match_here s with
  | Some m => Some m
  | None =>
      match s with
      | EmptyString => None
      | String _ s' => re_search s'
      end
  end.
Proof. by destruct s. Qed.

Lemma match_here_Some s m :
  match_here s = Some m → feed_url_at s 0 m ∧ ends_at_quote_or_eof s 0 m.
Proof.
  unfold match_here. destruct (Str.startswith rss_topics_prefix s) eqn:Hsw; [|done].
  apply startswith_drop in Hsw.
  destruct (span_spec not_quote (Str.drop (String.length rss_topics_prefix) s))
    as (rest & Hd & Hall & Hrest).
  destruct (Str.span not_quote _) as [|c id]; [done|].
  intros [= <-].
  assert (s = EmptyString +:+ (rss_topics_prefix +:+ String c id) +:+ rest) as Hs.
  { rewrite str_app_nil_l, str_app_assoc, <-Hd. exact Hsw. }
  split.
  - by exists EmptyString, (String c id), rest.
  - exists EmptyString, rest. repeat split; [done|].
    destruct rest as [|q rest]; [done|].
    unfold not_quote in Hrest. by apply negb_false_iff.
Qed.

Lemma match_here_None s m : match_here s = None → ¬ feed_url_at s 0 m.
Proof.
  intros Hnone (before & id & rest & Hs & Hlen & -> & Hid & Hall).
  apply length_zero_empty in Hlen as ->.
  rewrite str_app_nil_l, str_app_assoc in Hs.
  unfold match_here in Hnone.
  assert (Str.startswith rss_topics_prefix s = true) as Hsw
    by (apply startswith_spec; by eexists).
  rewrite Hsw, Hs, str_drop_app in Hnone.
  destruct id as [|c id]; [done|].
  rewrite str_app_cons in Hnone. simpl in Hall, Hnone.
  apply andb_true_iff in Hall as [Hc _]. by rewrite Hc in Hnone.
Qed.

Lemma feed_url_at_cons c s n m : feed_url_at (String c s) (S n) m ↔ feed_url_at s n m.
Proof.
  split.
  - intros ([|b before] & id & rest & Hs & Hlen & Hm); [done|].
    rewrite str_app_cons in Hs. injection Hs as _ Hs. injection Hlen as Hlen.
    by exists before, id, rest.
  - intros (before & id & rest & Hs & Hlen & Hm).
    exists (String c before), id, rest. rewrite str_app_cons, <-Hs. simpl.
    by rewrite Hlen.
Qed.

Lemma ends_at_quote_or_eof_cons c s n m :
  ends_at_quote_or_eof s n m → ends_at_quote_or_eof (String c s) (S n) m.
Proof.
  intros (before & rest & Hs & Hlen & Hrest).
  exists (String c before), rest. rewrite str_app_cons, <-Hs. simpl.
  by rewrite Hlen.
Qed.

(** The scan returns the leftmost feed URL of the text, extended up to the
    next quote character or to the end of the text; it returns [None]
    exactly when the text holds no feed URL. *)
Lemma re_search_spec s :
  match re_search s with
  | Some m =>
      ∃ n, feed_url_at s n m ∧ ends_at_quote_or_eof s n m ∧
           ∀ n' m', feed_url_at s n' m' → n ≤ n'
  | None => ∀ n m, ¬ feed_url_at s n m
  end.
Proof.
  induction s as [|c s IH]; rewrite re_search_eq.
  - destruct (match_here EmptyString) as [m|] eqn:Hhere.
    + apply match_here_Some in Hhere as [? ?]. exists 0. repeat split; [done..|lia].
    + intros [|n] m; [by apply match_here_None|].
      intros ([|b before] & ? & ? & Hs & Hlen & _); [done|].
      by rewrite str_app_cons in Hs.
  - destruct (match_here (String c s)) as [m|] eqn:Hhere.
    + apply match_here_Some in Hhere as [? ?]. exists 0. repeat split; [done..|lia].
    + destruct (re_search s) as [m|].
      * destruct IH as (n & Hat & Hend & Hleft). exists (S n). repeat split.
        -- by apply feed_url_at_cons.
        -- by apply ends_at_quote_or_eof_cons.
        -- intros [|n'] m' Hat'; [by apply match_here_None in Hat'|].
           apply feed_url_at_cons, Hleft in Hat'. lia.
      * intros [|n] m; [by apply match_here_None|].
        rewrite feed_url_at_cons. apply IH.
Qed.

(** ** Feed Resolver *)

Lemma head_filter_first {A} (P : A → Prop) `{!∀ x, Decision (P x)} (l : list A)
    before x after :
  l = before ++ x :: after → P x → (∀ y, y ∈ before → ¬ P y) →
  head (filter P l) = Some x.
Proof.
  intros -> Hx Hbefore.
  induction before as [|y before IH]; simpl.
  - by rewrite filter_cons_True.
  - rewrite filter_cons_False by (apply Hbefore; left).
    apply IH. intros z Hz. apply Hbefore. by right.
Qed.

Lemma head_filter_none {A} (P : A → Prop) `{!∀ x, Decision (P x)} (l : list A) :
  (∀ y, y ∈ l → ¬ P y) → head (filter P l) = None.
Proof.
  intros Hl. induction l as [|y l IH]; [done|].
  rewrite filter_cons_False by (apply Hl; left).
  apply IH. intros z Hz. apply Hl. by right.
Qed.

Lemma find_first_rss_link soup tag :
  first_rss_link soup tag →
  find "link" [("type", "application/rss+xml")] soup = Some tag.
Proof.
  intros (before & after & Hdesc & Htag & Hbefore).
  unfold find. by eapply head_filter_first.
Qed.

Lemma find_no_rss_link soup :
  (∀ e, e ∈ descendants soup → ¬ is_rss_link e) →
  find "link" [("type", "application/rss+xml")] soup = None.
Proof. intros Hnone. unfold find. by apply head_filter_none. Qed.

Lemma getitem_href tag :
  is_rss_link tag →
  getitem tag "href" =
  match href_of tag with
  | Some v => inr v
  | None => inl (KeyError "href")
  end.
Proof. by destruct tag. Qed.

(** After a successful fetch, the body of [get_rss_feed_url] is the
    branch on the result of [find]. *)
Lemma get_rss_feed_url_body_fetched w topic_url body soup st :
  fetched w topic_url body soup →
  get_rss_feed_url_body w topic_url st =
  match find "link" [("type", "application/rss+xml")] soup with
  | Some tag =>
      match getitem tag "href" with
      | inr href => (inr (Some href), st)
      | inl e => (inl (Exc e), st)
      end
  | None => (inr (re_search body), st)
  end.
Proof.
  intros (response & Hget & Hstatus & <- & Hsoup).
  unfold get_rss_feed_url_body.
  rewrite bind_run, Hget, lift_inr, bind_run, Hstatus, lift_inr, bind_run, Hsoup, lift_inr.
  destruct (find _ _ soup) as [tag|]; [|done].
  rewrite bind_run. by destruct (getitem tag "href").
Qed.

Lemma quiet_get_rss_feed_url_body w topic_url : quiet (get_rss_feed_url_body w topic_url).
Proof.
  unfold get_rss_feed_url_body.
  repeat (apply quiet_bind; [apply quiet_lift | intros]).
  destruct (find _ _ _); auto with quiet.
Qed.

Lemma get_rss_feed_url_cases w topic_url st :
  (∃ r, get_rss_feed_url_body w topic_url st = (inr r, st) ∧
        get_rss_feed_url w topic_url st = (inr r, st)) ∨
  (∃ e, get_rss_feed_url_body w topic_url st = (inl (Exc e), st) ∧
        get_rss_feed_url w topic_url st =
        (inr None, {| stdout := stdout st ++ ["Error getting RSS URL: " +:+ exn_str e];
                      fs := fs st |})).
Proof.
  apply (try_except_quiet _ (λ e, "Error getting RSS URL: " +:+ exn_str e)).
  apply quiet_get_rss_feed_url_body.
Qed.

Ltac not_rss_links :=
  intros ? Hin Hlink;
  repeat (apply elem_of_cons in Hin as [-> | Hin]; [discriminate Hlink|]);
  by apply elem_of_nil in Hin.

(** C3, as stated, fails: a page with two feed links holds a link whose
    [href] is the second URL, and the resolver returns the first. *)
Lemma get_rss_feed_url_link_counterexample :
  ¬ ∀ w topic_url st body soup tag X,
      fetched w topic_url body soup →
      tag ∈ descendants soup → is_rss_link tag → href_of tag = Some X →
      (get_rss_feed_url w topic_url st).1 = inr (Some X).
Proof.
  intros Hclaim.
  specialize (Hclaim (page_world quoted_body two_links_soup) "https://topic" st0
                quoted_body two_links_soup (rss_link {[ "href" := feed_b ]}) feed_b).
  assert ((inr (Some feed_a) : signal + option string) = inr (Some feed_b)) as Heq;
    [|discriminate Heq].
  apply Hclaim.
  - by eexists.
  - apply list_elem_of_In. vm_compute. tauto.
  - reflexivity.
  - reflexivity.
Qed.

(** C3 (amended): when the first link element of type
    [application/rss+xml] of the fetched page, in document order, has an
    [href] attribute of value X, [get_rss_feed_url] returns exactly X,
    whatever else the page holds. *)
Theorem get_rss_feed_url_link w topic_url st body soup tag X :
  fetched w topic_url body soup →
  first_rss_link soup tag →
  href_of tag = Some X →
  get_rss_feed_url w topic_url st = (inr (Some X), st).
Proof.
  intros Hfetched Hfirst Hhref.
  pose proof (get_rss_feed_url_body_fetched _ _ _ _ st Hfetched) as Hbody.
  rewrite (find_first_rss_link _ _ Hfirst), getitem_href, Hhref in Hbody
    by (by destruct Hfirst as (? & ? & ? & ? & ?)).
  destruct (get_rss_feed_url_cases w topic_url st) as [(r & Hr & ->) | (e & He & _)];
    congruence.
Qed.

Lemma get_rss_feed_url_link_witness :
  get_rss_feed_url (page_world quoted_body one_link_soup) "https://topic" st0
  = (inr (Some feed_a), st0).
Proof.
  apply (get_rss_feed_url_link _ _ _ quoted_body one_link_soup
           (rss_link {[ "href" := feed_a ]})).
  - eexists. repeat split.
  - eexists [_; _; _], _. split; [reflexivity|]. split; [reflexivity|].
    not_rss_links.
  - reflexivity.
Defined.

(** C9, as stated, fails: a page holding a feed link without [href] after
    a feed link with one resolves to the first link's URL, not to
    [None]. *)
Lemma get_rss_feed_url_missing_href_counterexample :
  ¬ ∀ w topic_url st body soup tag,
      fetched w topic_url body soup →
      tag ∈ descendants soup → is_rss_link tag → href_of tag = None →
      (get_rss_feed_url w topic_url st).1 = inr None.
Proof.
  intros Hclaim.
  specialize (Hclaim (page_world quoted_body link_then_bare_soup) "https://topic" st0
                quoted_body link_then_bare_soup (rss_link ∅)).
  assert ((inr (Some feed_a) : signal + option string) = inr None) as Heq;
    [|discriminate Heq].
  apply Hclaim.
  - by eexists.
  - apply list_elem_of_In. vm_compute. tauto.
  - reflexivity.
  - reflexivity.
Qed.

(** C9 (amended): when the first link element of type
    [application/rss+xml] of the fetched page has no [href] attribute,
    [get_rss_feed_url] returns [None] after logging the [KeyError], and
    the text of the page is not scanned: the result is [None] also when
    the scan would find a feed URL. *)
Theorem get_rss_feed_url_missing_href w topic_url st body soup tag :
  fetched w topic_url body soup →
  first_rss_link soup tag →
  href_of tag = None →
  get_rss_feed_url_body w topic_url st = (inl (Exc (KeyError "href")), st) ∧
  get_rss_feed_url w topic_url st =
  (inr None, {| stdout := stdout st ++ ["Error getting RSS URL: 'href'"];
                fs := fs st |}).
Proof.
  intros Hfetched Hfirst Hhref.
  pose proof (get_rss_feed_url_body_fetched _ _ _ _ st Hfetched) as Hbody.
  rewrite (find_first_rss_link _ _ Hfirst), getitem_href, Hhref in Hbody
    by (by destruct Hfirst as (? & ? & ? & ? & ?)).
  split; [done|].
  destruct (get_rss_feed_url_cases w topic_url st) as [(r & Hr & _) | (e & He & ->)];
    [congruence|].
  rewrite Hbody in He. by injection He as <-.
Qed.

Lemma get_rss_feed_url_missing_href_witness :
  re_search quoted_body = Some feed_b ∧
  get_rss_feed_url (page_world quoted_body bare_link_soup) "https://topic" st0
  = (inr None, {| stdout := ["Error getting RSS URL: 'href'"]; fs := ∅ |}).
Proof.
  split; [reflexivity|].
  refine (proj2 (get_rss_feed_url_missing_href
                   (page_world quoted_body bare_link_soup) "https://topic" st0
                   quoted_body bare_link_soup (rss_link ∅) _ _ _)).
  - eexists. repeat split.
  - eexists [_; _; _], _. split; [reflexivity|]. split; [reflexivity|].
    not_rss_links.
  - reflexivity.
Defined.

(** A text without quote characters has no quote-terminated part. *)
Lemma no_quote_no_ends_at_quote body n m :
  Str.all not_quote body = true → ¬ ends_at_quote body n m.
Proof.
  intros Hall (before & q & rest & -> & _ & Hq).
  rewrite !str_all_app in Hall. cbn [Str.all] in Hall.
  apply andb_true_iff in Hall as [_ Hall].
  apply andb_true_iff in Hall as [_ Hall].
  apply andb_true_iff in Hall as [Hnq _].
  unfold not_quote in Hnq. by rewrite Hq in Hnq.
Qed.

(** C4, as stated, fails: in a page without feed link whose text ends in
    a feed URL, no feed URL is followed by a quote character, and the
    resolver returns the URL, not [None]. *)
Lemma get_rss_feed_url_fallback_counterexample :
  ¬ ∀ w topic_url st body soup,
      fetched w topic_url body soup →
      (∀ e, e ∈ descendants soup → ¬ is_rss_link e) →
      (∀ n m, ¬ (feed_url_at body n m ∧ ends_at_quote body n m)) →
      (get_rss_feed_url w topic_url st).1 = inr None.
Proof.
  intros Hclaim.
  specialize (Hclaim (page_world unquoted_body no_link_soup) "https://topic" st0
                unquoted_body no_link_soup).
  assert ((inr (Some "https://news.google.com/rss/topics/ABC123")
           : signal + option string) = inr None) as Heq; [|discriminate Heq].
  apply Hclaim.
  - by eexists.
  - not_rss_links.
  - intros n m [_ Hend]. exact (no_quote_no_ends_at_quote unquoted_body n m eq_refl Hend).
Qed.

(** C4 (amended): for every fetched page without link element of type
    [application/rss+xml], [get_rss_feed_url] returns the first part of
    the raw text made of [https://news.google.com/rss/topics/] and a
    non-empty identifier, the identifier running up to the next quote
    character or, when no quote follows, up to the end of the text;
    it returns [None] when the text holds no such part. *)
Theorem get_rss_feed_url_fallback w topic_url st body soup :
  fetched w topic_url body soup →
  (∀ e, e ∈ descendants soup → ¬ is_rss_link e) →
  ∃ r,
    get_rss_feed_url w topic_url st = (inr r, st) ∧
    match r with
    | Some m =>
        ∃ n, feed_url_at body n m ∧ ends_at_quote_or_eof body n m ∧
             ∀ n' m', feed_url_at body n' m' → n ≤ n'
    | None => ∀ n m, ¬ feed_url_at body n m
    end.
Proof.
  intros Hfetched Hnone.
  pose proof (get_rss_feed_url_body_fetched _ _ _ _ st Hfetched) as Hbody.
  rewrite (find_no_rss_link _ Hnone) in Hbody.
  exists (re_search body). split; [|apply re_search_spec].
  destruct (get_rss_feed_url_cases w topic_url st) as [(r & Hr & ->) | (e & He & _)];
    congruence.
Qed.

Lemma get_rss_feed_url_fallback_witness :
  ∃ r,
    get_rss_feed_url (page_world quoted_body no_link_soup) "https://topic" st0
    = (inr r, st0) ∧
    match r with
    | Some m =>
        ∃ n, feed_url_at quoted_body n m ∧ ends_at_quote_or_eof quoted_body n m ∧
             ∀ n' m', feed_url_at quoted_body n' m' → n ≤ n'
    | None => ∀ n m, ¬ feed_url_at quoted_body n m
    end.
Proof.
  apply (get_rss_feed_url_fallback _ _ _ quoted_body no_link_soup).
  - eexists. repeat split.
  - intros e Hin Hlink.
    repeat (apply elem_of_cons in Hin as [-> | Hin]; [discriminate Hlink|]).
    apply elem_of_nil in Hin. destruct Hin.
Defined.

(** On the two bodies of the specification's examples the scan gives the
    quoted URL, and nothing on a body without feed URL. *)
Example re_search_quoted : re_search quoted_body = Some feed_b.
Proof. reflexivity. Qed.

Example re_search_nothing : re_search "<html><head></head></html>" = None.
Proof. reflexivity. Qed.

(** ** Configuration *)



(** ** The README excerpt *)

Lemma top_news_loop_app i articles markdown_content :
  top_news_loop i articles markdown_content
  = markdown_content +:+ top_news_loop i articles EmptyString.
Proof.
  revert i markdown_content.
  induction articles as [|a rest IH]; intros i markdown_content; simpl.
  - by rewrite str_app_nil_r.
  - rewrite IH, (IH _ (_ +:+ _)). by rewrite !str_app_assoc.
Qed.

(** The item of the k-th article of the loop stands in the content built,
    numbered from the start index. *)
Lemma top_news_loop_item articles i k article markdown_content :
  articles !! k = Some article →
  ∃ before after,
    top_news_loop i articles markdown_content
    = markdown_content +:+ before +:+ item_head (i + k) article
      +:+ item_excerpt article +:+ after.
Proof.
  revert i k markdown_content.
  induction articles as [|a rest IH]; intros i k markdown_content Hk; [done|].
  destruct k as [|k]; simplify_eq/=.
  - exists EmptyString, (top_news_loop (S i) rest EmptyString).
    rewrite top_news_loop_app, Nat.add_0_r. by rewrite !str_app_assoc.
  - destruct (IH (S i) k ((markdown_content +:+ item_head i a) +:+ item_excerpt a) Hk)
      as (before & after & ->).
    exists (item_head i a +:+ item_excerpt a +:+ before), after.
    rewrite <-Nat.add_succ_comm. by rewrite !str_app_assoc.
Qed.


(** ** Persistence and the driver *)

Lemma print_run line st : print line st = (inr tt, say line st).
Proof. reflexivity. Qed.

Lemma print_bind {B} line (k : M B) st : (print line;; k) st = k (say line st).
Proof. reflexivity. Qed.

Lemma total_catchable {A} (m : M A) : total m → catchable m.
Proof. intros Hm st. left. apply Hm. Qed.

Lemma total_print line : total (print line).
Proof. intros st. by eexists _, _. Qed.

Lemma catchable_ret {A} (x : A) : catchable (mret x).
Proof. intros st. left. by eexists _, _. Qed.

Lemma catchable_lift {A} (r : exn + A) : catchable (lift r).
Proof. intros st. destruct r; [right | left]; by eexists _, _. Qed.

Lemma catchable_lift_fs {A} (op : FS → (exn + A) * FS) : catchable (lift_fs op).
Proof.
  intros st. unfold lift_fs.
  destruct (op (fs st)) as [[e|x] fs']; [right | left]; by eexists _, _.
Qed.

Lemma catchable_bind {A B} (m : M A) (f : A → M B) :
  catchable m → (∀ x, catchable (f x)) → catchable (m ≫= f).
Proof.
  intros Hm Hf st. rewrite bind_run.
  destruct (Hm st) as [(x & st' & ->) | (e & st' & ->)]; [apply Hf|].
  right. by eexists _, _.
Qed.

(** [try ... except Exception] with a handler that returns makes a
    computation that returns, whatever the body raises. *)
Lemma total_try_except {A} (body : M A) (handler : exn → M A) :
  catchable body → (∀ e, total (handler e)) → total (try_except body handler).
Proof.
  intros Hbody Hhandler st. unfold try_except.
  destruct (Hbody st) as [(x & st' & ->) | (e & st' & ->)]; [by eexists _, _|].
  apply Hhandler.
Qed.

Lemma catchable_history_loop w files markdown_content :
  catchable (history_loop w files markdown_content).
Proof.
  revert markdown_content.
  induction files as [|file rest IH]; intros markdown_content; simpl.
  - apply catchable_ret.
  - destruct (_ && _); [|apply IH].
    apply catchable_bind; [apply catchable_lift_fs | intros; apply IH].
Qed.

Lemma total_update_readme w articles date_str :
  total (update_readme w articles date_str).
Proof.
  apply total_try_except; [|intros; apply total_print].
  unfold update_readme_body.
  apply catchable_bind; [apply catchable_lift | intros now].
  apply catchable_bind; [apply catchable_lift_fs | intros files].
  apply catchable_bind; [apply catchable_history_loop | intros content].
  apply catchable_lift_fs.
Qed.

Lemma catchable_save_news_data_body w articles :
  catchable (save_news_data_body w articles).
Proof.
  unfold save_news_data_body.
  apply catchable_bind; [apply catchable_lift_fs | intros _].
  apply catchable_bind; [apply catchable_lift | intros date_str].
  apply catchable_bind; [apply catchable_lift_fs | intros _].
  apply catchable_bind; [apply total_catchable, total_update_readme | intros _].
  apply total_catchable, total_print.
Qed.

Lemma total_save_news_data w articles : total (save_news_data w articles).
Proof.
  apply total_try_except; [apply catchable_save_news_data_body|].
  intros; apply total_print.
Qed.

(** The two stages return, and leave the file system alone. *)
Lemma get_rss_feed_url_returns w topic_url st :
  ∃ r st', get_rss_feed_url w topic_url st = (inr r, st') ∧ fs st' = fs st.
Proof.
  destruct (get_rss_feed_url_cases w topic_url st) as [(r & _ & ->) | (e & _ & ->)];
    by eexists _, _.
Qed.

Lemma parse_rss_feed_returns w rss_url st :
  ∃ articles st', parse_rss_feed w rss_url st = (inr articles, st') ∧ fs st' = fs st.
Proof.
  destruct (parse_rss_feed_cases w rss_url st) as [(a & _ & ->) | (e & _ & ->)];
    by eexists _, _.
Qed.

(** The three ways through the driver. *)
Lemma main_cases w st r :
  resolves_to w r →
  match r with
  | None | Some EmptyString =>
      ∃ st', main w st = (inl (SystemExit 1), st') ∧ fs st' = fs st
  | Some rss_url =>
      ∀ articles, extracts w rss_url articles →
      match articles with
      | [] => ∃ st', main w st = (inl (SystemExit 1), st') ∧ fs st' = fs st
      | _ :: _ =>
          ∃ st1 st2,
            fs st1 = fs st ∧
            save_news_data w articles st1 = (inr tt, st2) ∧
            main w st = (inr tt, say "Scraping completed successfully" st2)
      end
  end.
Proof.
  intros Hres. unfold main. rewrite !print_bind, bind_run.
  match goal with
  | |- context [get_rss_feed_url w (NEWS_URL w) ?s] =>
      destruct (get_rss_feed_url_returns w (NEWS_URL w) s) as (r' & st1 & Hrun & Hfs);
      specialize (Hres s)
  end.
  rewrite Hrun in Hres. injection Hres as ->. rewrite Hrun.
  destruct r as [[|c url]|].
  - rewrite print_bind. by eexists.
  - intros articles Hext. rewrite print_bind, bind_run.
    match goal with
    | |- context [parse_rss_feed w (String c url) ?s] =>
        destruct (parse_rss_feed_returns w (String c url) s) as (a & st2 & Hparse & Hfs');
        specialize (Hext s)
    end.
    rewrite Hparse in Hext. injection Hext as ->. rewrite Hparse.
    destruct articles as [|a0 articles].
    + rewrite print_bind. eexists. split; [done|]. simpl in *. congruence.
    + rewrite print_bind, bind_run.
      match goal with
      | |- context [save_news_data w _ ?s] =>
          destruct (total_save_news_data w (a0 :: articles) s) as ([] & st3 & Hsave);
          exists s, st3
      end.
      rewrite Hsave, print_run. split; [simpl in *; congruence|].
      split; reflexivity.
  - rewrite print_bind. by eexists.
Qed.

(** Both stages have an outcome in every world, the same from every
    state. *)
Lemma try_except_quiet_value {A} (body : M A) (msg : exn → string) (fallback : A) :
  quiet body →
  ∃ r, ∀ st, (try_except body (λ e, print (msg e);; mret fallback) st).1 = inr r.
Proof.
  intros [[e|x] Hq]; [exists fallback | exists x]; intros st;
    unfold try_except; by rewrite Hq.
Qed.

Lemma resolves_to_total w : ∃ r, resolves_to w r.
Proof.
  apply (try_except_quiet_value _ (λ e, "Error getting RSS URL: " +:+ exn_str e)).
  apply quiet_get_rss_feed_url_body.
Qed.

Lemma extracts_total w rss_url : ∃ articles, extracts w rss_url articles.
Proof.
  apply (try_except_quiet_value _ (λ e, "Error parsing RSS feed: " +:+ exn_str e)).
  apply quiet_parse_rss_feed_body.
Qed.

Lemma run_eq w st : run w st = (exit_code (main w st).1, (main w st).2).
Proof. unfold run. by destruct (main w st). Qed.

(** C6, as stated, fails: the exit code of a run whose resolution fails
    and that of a run that extracts no article are the same code, 1. *)
Lemma exit_codes_counterexample :
  ¬ ∀ w1 w2 st rss_url,
      resolves_to w1 None →
      resolves_to w2 (Some rss_url) → rss_url ≠ EmptyString →
      extracts w2 rss_url [] →
      (run w1 st).1 ≠ (run w2 st).1.
Proof.
  intros Hclaim.
  apply (Hclaim offline_world (feed_world [] false) st0 feed_a).
  - intros st. reflexivity.
  - intros st. reflexivity.
  - discriminate.
  - intros st. reflexivity.
  - reflexivity.
Qed.

(** C6 (amended): a run exits with code 0 or with code 1, and with no
    other; with 1 when the resolver returns [None] or the empty string,
    with the same code 1 when the feed yields no article, and in both
    cases the file system is as the run found it; with 0 when a feed URL
    is resolved and at least one article extracted. *)
Theorem run_exit_codes w st :
  ((run w st).1 = 0%Z ∨ (run w st).1 = 1%Z) ∧
  (∀ r, resolves_to w r → truthy_url r = false →
     (run w st).1 = 1%Z ∧ fs (run w st).2 = fs st) ∧
  (∀ rss_url, resolves_to w (Some rss_url) → truthy_url (Some rss_url) = true →
     extracts w rss_url [] →
     (run w st).1 = 1%Z ∧ fs (run w st).2 = fs st) ∧
  (∀ rss_url articles,
     resolves_to w (Some rss_url) → truthy_url (Some rss_url) = true →
     extracts w rss_url articles → articles ≠ [] →
     (run w st).1 = 0%Z).
Proof.
  rewrite run_eq. cbn [fst snd]. split; [|split; [|split]].
  - destruct (resolves_to_total w) as [r Hr].
    pose proof (main_cases w st r Hr) as Hmain.
    destruct r as [[|c url]|].
    + destruct Hmain as (st' & -> & _). by right.
    + destruct (extracts_total w (String c url)) as [articles Hext].
      specialize (Hmain articles Hext). destruct articles as [|a articles].
      * destruct Hmain as (st' & -> & _). by right.
      * destruct Hmain as (st1 & st2 & _ & _ & ->). by left.
    + destruct Hmain as (st' & -> & _). by right.
  - intros r Hr Hfalsy. pose proof (main_cases w st r Hr) as Hmain.
    destruct r as [[|c url]|]; [|done|]; by destruct Hmain as (st' & -> & ?).
  - intros rss_url Hr Htruthy Hext. pose proof (main_cases w st _ Hr) as Hmain.
    destruct rss_url as [|c url]; [done|]. specialize (Hmain _ Hext).
    by destruct Hmain as (st' & -> & ?).
  - intros rss_url articles Hr Htruthy Hext Hne.
    pose proof (main_cases w st _ Hr) as Hmain.
    destruct rss_url as [|c url]; [done|]. specialize (Hmain _ Hext).
    destruct articles as [|a articles]; [done|].
    by destruct Hmain as (st1 & st2 & _ & _ & ->).
Qed.

Lemma run_exit_codes_witness :
  ((run offline_world st0).1 = 1%Z ∧ fs (run offline_world st0).2 = fs st0) ∧
  ((run (feed_world [] false) st0).1 = 1%Z ∧
   fs (run (feed_world [] false) st0).2 = fs st0) ∧
  (run (feed_world [good_entry] false) st0).1 = 0%Z.
Proof.
  split; [|split].
  - apply (proj1 (proj2 (run_exit_codes offline_world st0)) None).
    + intros st. reflexivity.
    + reflexivity.
  - apply (proj1 (proj2 (proj2 (run_exit_codes (feed_world [] false) st0))) feed_a).
    + intros st. reflexivity.
    + reflexivity.
    + intros st. reflexivity.
  - apply (proj2 (proj2 (proj2 (run_exit_codes (feed_world [good_entry] false) st0)))
             feed_a [good_article]).
    + intros st. reflexivity.
    + reflexivity.
    + intros st. reflexivity.
    + discriminate.
Defined.

(** What [save_news_data] does when the snapshot cannot be written: the
    exception is logged and the function returns. *)
Lemma save_news_data_write_fails w articles st fs1 date_str e fs2 :
  os_makedirs w OUTPUT_DIR (fs st) = (inr tt, fs1) →
  now_beijing_date w = inr date_str →
  open_json_dump w (os_path_join OUTPUT_DIR ("google-news-" +:+ date_str +:+ ".json"))
    {| snap_date := date_str; snap_source_url := NEWS_URL w; snap_articles := articles |}
    fs1 = (inl e, fs2) →
  save_news_data w articles st =
  (inr tt, {| stdout := stdout st ++ ["Error saving news data: " +:+ exn_str e];
              fs := fs2 |}).
Proof.
  intros Hmk Hdate Hdump.
  unfold save_news_data, try_except, save_news_data_body.
  rewrite bind_run. unfold lift_fs at 1. rewrite Hmk.
  rewrite bind_run, Hdate, lift_inr, bind_run. unfold lift_fs at 1.
  cbn [fs]. by rewrite Hdump.
Qed.

(** An exception raised inside either persistence function is logged by
    that function, which then returns. *)
Lemma try_except_logs (body : M unit) (prefix : string) st e st' :
  body st = (inl (Exc e), st') →
  try_except body (λ e, print (prefix +:+ exn_str e)) st
  = (inr tt, say (prefix +:+ exn_str e) st').
Proof. intros Hbody. unfold try_except. by rewrite Hbody. Qed.

(** C10: when a feed URL is resolved and at least one article extracted,
    the run exits with code 0 and its last printed line is the completion
    message, whatever the file system does: [save_news_data] and
    [update_readme] return from every state, every exception raised in
    their bodies is logged by them, and so is, in particular, an
    exception raised by the write of the snapshot. *)
Theorem run_completes_when_saving_fails w st rss_url articles :
  resolves_to w (Some rss_url) → truthy_url (Some rss_url) = true →
  extracts w rss_url articles → articles ≠ [] →
  (run w st).1 = 0%Z ∧
  last (stdout (run w st).2) = Some "Scraping completed successfully" ∧
  total (save_news_data w articles) ∧
  (∀ date_str, total (update_readme w articles date_str)) ∧
  (∀ st1 e st2,
     save_news_data_body w articles st1 = (inl (Exc e), st2) →
     save_news_data w articles st1
     = (inr tt, say ("Error saving news data: " +:+ exn_str e) st2)) ∧
  (∀ date_str st1 e st2,
     update_readme_body w articles date_str st1 = (inl (Exc e), st2) →
     update_readme w articles date_str st1
     = (inr tt, say ("Error updating README: " +:+ exn_str e) st2)) ∧
  (∀ st1 fs1 date_str e fs2,
     os_makedirs w OUTPUT_DIR (fs st1) = (inr tt, fs1) →
     now_beijing_date w = inr date_str →
     open_json_dump w (os_path_join OUTPUT_DIR ("google-news-" +:+ date_str +:+ ".json"))
       {| snap_date := date_str; snap_source_url := NEWS_URL w;
          snap_articles := articles |} fs1 = (inl e, fs2) →
     save_news_data w articles st1 =
     (inr tt, {| stdout := stdout st1 ++ ["Error saving news data: " +:+ exn_str e];
                 fs := fs2 |})).
Proof.
  intros Hr Htruthy Hext Hne.
  pose proof (main_cases w st _ Hr) as Hmain.
  destruct rss_url as [|c url]; [done|]. specialize (Hmain _ Hext).
  destruct articles as [|a articles]; [done|].
  destruct Hmain as (st1 & st2 & _ & _ & Hmain).
  rewrite run_eq, Hmain. cbn [fst snd exit_code].
  split; [done|]. split; [apply last_snoc|].
  split; [apply total_save_news_data|].
  split; [intros; apply total_update_readme|].
  split; [intros; by apply try_except_logs|].
  split; [intros; by apply try_except_logs|].
  intros. by eapply save_news_data_write_fails.
Qed.

Lemma run_completes_when_saving_fails_witness :
  (run (feed_world [good_entry] true) st0).1 = 0%Z ∧
  last (stdout (run (feed_world [good_entry] true) st0).2)
  = Some "Scraping completed successfully" ∧
  save_news_data (feed_world [good_entry] true) [good_article] st0
  = (inr tt, {| stdout := ["Error saving news data: No space left on device"];
                fs := ∅ |}).
Proof.
  destruct (run_completes_when_saving_fails (feed_world [good_entry] true) st0
              feed_a [good_article])
    as (Hcode & Hlast & _ & _ & Hlogged & _ & Hsave).
  - intros st. reflexivity.
  - reflexivity.
  - intros st. reflexivity.
  - discriminate.
  - split; [exact Hcode|]. split; [exact Hlast|].
    apply (Hsave st0 ∅ "2024-05-01" (Exception "No space left on device") ∅);
      reflexivity.
Defined.

(** The log of a run against a full disk. *)
Example run_full_disk_log :
  stdout (run (feed_world [good_entry] true) st0).2 =
  [ "Starting Google News scraper...";
    "Target URL: " +:+ default_news_url;
    "Found RSS feed: " +:+ feed_a;
    "Found 1 articles";
    "Error saving news data: No space left on device";
    "Scraping completed successfully" ].
Proof. reflexivity. Qed.

(** An environment that sets [NEWS_URL] changes the target of the run. *)
Example run_news_url_override :
  stdout (run (sample_world {[ "NEWS_URL" := "https://example.org/topic" ]}
                 (ok_page quoted_body) (inr one_link_soup) (feed_of []) false) st0).2
  = [ "Starting Google News scraper...";
      "Target URL: https://example.org/topic";
      "Found RSS feed: " +:+ feed_a;
      "No articles found in RSS feed" ].
Proof. reflexivity. Qed.

(** A summary of 160 characters is cut after the 150th. *)
Example item_excerpt_long :
  item_excerpt
    {| title := "T"; link := "L"; published := EmptyString; source := "S";
       summary := "xxxxxxxxxxxxxxxxxxxxxxxxxxxxxxxxxxxxxxxxxxxxxxxxxxxxxxxxxxxxxxxxxxxxxxxxxxxxxxxxxxxxxxxxxxxxxxxxxxxxxxxxxxxxxxxxxxxxxxxxxxxxxxxxxxxxxxxxxxxxxxxxxxxxxxxxxxxxxxxx" |}
  = "   > xxxxxxxxxxxxxxxxxxxxxxxxxxxxxxxxxxxxxxxxxxxxxxxxxxxxxxxxxxxxxxxxxxxxxxxxxxxxxxxxxxxxxxxxxxxxxxxxxxxxxxxxxxxxxxxxxxxxxxxxxxxxxxxxxxxxxxxxxxxxxxxxxxxxxx..." +:+ newline +:+ newline.
Proof. reflexivity. Qed.

(** * Further properties of the script *)

(** ** Feed Resolver: failures at the boundary *)

(** X1: when the HTTP request raises, or the status check raises, or the
    HTML parser raises, [get_rss_feed_url] logs that exception and
    returns [None]; neither the links of the page nor its text are
    consulted. *)
Theorem get_rss_feed_url_fetch_fails w topic_url st e :
  requests_get w topic_url request_headers 30 = inl e ∨
  (∃ response,
     requests_get w topic_url request_headers 30 = inr response ∧
     (raise_for_status response = inl e ∨
      (raise_for_status response = inr tt ∧
       BeautifulSoup w (text response) "html.parser" = inl e))) →
  get_rss_feed_url w topic_url st
  = (inr None, say ("Error getting RSS URL: " +:+ exn_str e) st).
Proof.
  intros Hfail.
  assert (get_rss_feed_url_body w topic_url st = (inl (Exc e), st)) as Hbody.
  { unfold get_rss_feed_url_body. rewrite bind_run.
    destruct Hfail as [-> | (response & -> & [Hstatus | [Hstatus Hsoup]])]; [done|..];
      rewrite lift_inr, bind_run, Hstatus; [done|].
    by rewrite lift_inr, bind_run, Hsoup. }
  unfold get_rss_feed_url, try_except. by rewrite Hbody.
Qed.

Lemma get_rss_feed_url_fetch_fails_witness :
  re_search quoted_body = Some feed_b ∧
  find "link" [("type", "application/rss+xml")] one_link_soup
  = Some (rss_link {[ "href" := feed_a ]}) ∧
  get_rss_feed_url http_error_world "https://topic" st0
  = (inr None, say "Error getting RSS URL: 404 Client Error" st0).
Proof.
  split; [reflexivity|]. split; [reflexivity|].
  apply (get_rss_feed_url_fetch_fails http_error_world "https://topic" st0
           (Exception "404 Client Error")).
  right. eexists. split; [reflexivity|]. left. reflexivity.
Defined.

(** X2: [get_rss_feed_url] never raises and never exits.  From every
    state it either returns its result leaving the state as it was, or
    returns [None] after printing exactly one line; the file system is
    not touched. *)
Theorem get_rss_feed_url_never_raises w topic_url st :
  (∃ r, get_rss_feed_url w topic_url st = (inr r, st)) ∨
  (∃ e, get_rss_feed_url w topic_url st
        = (inr None, say ("Error getting RSS URL: " +:+ exn_str e) st)).
Proof.
  destruct (get_rss_feed_url_cases w topic_url st) as [(r & _ & Hr) | (e & _ & He)];
    [left; by exists r | right; by exists e].
Qed.

(** ** Feed Normalizer: the batch as a whole *)

Lemma article_of_entry_inv entry st a st' :
  article_of_entry entry st = (inr a, st') → st' = st ∧ normalises entry a.
Proof.
  unfold article_of_entry. destruct (clean_source entry) as [e|s] eqn:Hs; [done|].
  destruct (entry_title entry) as [t|] eqn:Ht; [|done].
  destruct (entry_link entry) as [l|] eqn:Hl; [|done].
  intros [= <- <-]. by repeat split.
Qed.

(** Whenever the loop returns, it has appended one normalisation per
    entry, in order. *)
Lemma for_entries_inv es articles st res st' :
  for_entries es articles st = (inr res, st') →
  st' = st ∧ ∃ new, res = articles ++ new ∧ Forall2 normalises es new.
Proof.
  revert articles st. induction es as [|entry es IH]; intros articles st.
  - intros [= <- <-]. split; [done|]. exists []. by rewrite (right_id_L [] (++)).
  - cbn [for_entries]. rewrite bind_run.
    destruct (article_of_entry entry st) as [[sg|a] st1] eqn:Ha; [done|].
    apply article_of_entry_inv in Ha as [-> Hnorm].
    intros (-> & new & -> & Hall)%IH. split; [done|].
    exists (a :: new). split; [by rewrite <-(assoc_L (++))|by constructor].
Qed.

Lemma parse_rss_feed_body_inv w rss_url st articles st' :
  parse_rss_feed_body w rss_url st = (inr articles, st') →
  ∃ feed, feedparser_parse w rss_url = inr feed ∧
          Forall2 normalises (take MAX_ARTICLES (entries feed)) articles.
Proof.
  unfold parse_rss_feed_body. rewrite bind_run.
  destruct (feedparser_parse w rss_url) as [e|feed]; [done|].
  rewrite lift_inr. intros (_ & new & -> & Hall)%for_entries_inv. by exists feed.
Qed.

(** What [parse_rss_feed] returns is the empty list or the result of its
    body. *)
Lemma parse_rss_feed_inv w rss_url st articles st' :
  parse_rss_feed w rss_url st = (inr articles, st') →
  articles = [] ∨ parse_rss_feed_body w rss_url st = (inr articles, st).
Proof.
  destruct (parse_rss_feed_cases w rss_url st) as [(a & Ha & ->) | (e & He & ->)].
  - intros [= <- <-]. by right.
  - intros [= <- <-]. by left.
Qed.

(** X3: whatever the feed parser does, [parse_rss_feed] returns a list of
    at most 20 articles. *)
Theorem parse_rss_feed_at_most_cap w rss_url st :
  ∃ articles st',
    parse_rss_feed w rss_url st = (inr articles, st') ∧ length articles ≤ 20.
Proof.
  destruct (parse_rss_feed_returns w rss_url st) as (articles & st' & Hrun & _).
  exists articles, st'. split; [done|].
  destruct (parse_rss_feed_inv _ _ _ _ _ Hrun) as [-> | Hbody]; [simpl; lia|].
  apply parse_rss_feed_body_inv in Hbody as (feed & _ & Hall).
  apply Forall2_length in Hall. rewrite length_take in Hall.
  unfold MAX_ARTICLES in Hall. lia.
Qed.

Lemma not_well_formed entry : ¬ well_formed entry → lacks_required_field entry.
Proof.
  unfold well_formed, lacks_required_field. intros Hnot.
  destruct (entry_title entry); [|by left].
  destruct (entry_link entry); [|by right].
  destruct Hnot. by split.
Qed.

(** X4: [parse_rss_feed] returns the empty list exactly when the feed
    parser raises, or the feed has no entry, or one of the first 20
    entries has no [title] or no [link]. *)
Theorem parse_rss_feed_empty_iff w rss_url :
  extracts w rss_url [] ↔
  (∃ e, feedparser_parse w rss_url = inl e) ∨
  (∃ feed, feedparser_parse w rss_url = inr feed ∧
     (entries feed = [] ∨
      ∃ entry, entry ∈ take MAX_ARTICLES (entries feed) ∧
               lacks_required_field entry)).
Proof.
  split.
  - intros Hext. destruct (feedparser_parse w rss_url) as [e|feed] eqn:Hfeed;
      [left; by exists e|].
    right. exists feed. split; [done|].
    destruct (decide (Forall well_formed (take MAX_ARTICLES (entries feed))))
      as [Hwf | Hnot].
    + left. destruct (for_entries_ok _ [] st0 Hwf) as (new & Hloop & Hall).
      specialize (Hext st0).
      destruct (parse_rss_feed_cases w rss_url st0) as [(a & Ha & Hp) | (e & He & _)].
      * rewrite Hp in Hext. injection Hext as ->.
        unfold parse_rss_feed_body in Ha. rewrite bind_run, Hfeed, lift_inr, Hloop in Ha.
        assert (new = []) as -> by (by injection Ha).
        apply Forall2_nil_inv_r in Hall.
        apply take_nil_inv in Hall as [? | ?]; done.
      * unfold parse_rss_feed_body in He. rewrite bind_run, Hfeed, lift_inr, Hloop in He.
        done.
    + right. apply not_Forall_Exists in Hnot; [|apply _].
      apply Exists_exists in Hnot as (entry & Hin & Hbad).
      exists entry. split; [done|]. by apply not_well_formed.
  - intros [[e Hfeed] | (feed & Hfeed & Hcase)] st.
    + unfold parse_rss_feed, try_except, parse_rss_feed_body.
      by rewrite bind_run, Hfeed.
    + destruct (parse_rss_feed_cases w rss_url st) as [(a & Ha & ->) | (e & He & ->)];
        [|done].
      unfold parse_rss_feed_body in Ha. rewrite bind_run, Hfeed, lift_inr in Ha.
      destruct Hcase as [Hnil | (entry & Hin & Hbad)].
      * rewrite Hnil in Ha. by injection Ha as <-.
      * destruct (for_entries_raises (take MAX_ARTICLES (entries feed)) [] st) as [e He];
          [apply Exists_exists; by exists entry | congruence].
Qed.

Lemma parse_rss_feed_empty_iff_witness :
  extracts parser_down_world feed_a [] ∧
  extracts (feed_world [good_entry; untitled_entry] false) feed_a [].
Proof.
  split.
  - apply (proj2 (parse_rss_feed_empty_iff parser_down_world feed_a)).
    left. eexists. reflexivity.
  - apply (proj2 (parse_rss_feed_empty_iff
                    (feed_world [good_entry; untitled_entry] false) feed_a)).
    right. eexists. split; [reflexivity|]. right. exists untitled_entry. split.
    + apply list_elem_of_In. right. left. reflexivity.
    + left. reflexivity.
Defined.

(** The text before the first occurrence of a separator does not hold the
    separator. *)
Lemma text_before_first_free sep s before :
  sep ≠ EmptyString → text_before_first sep s before → ¬ occurs sep before.
Proof.
  intros Hsep [[after Hs] Hmin] (b & a & Hb).
  specialize (Hmin b (a +:+ sep +:+ after)).
  rewrite Hs, Hb, !str_app_assoc in Hmin. specialize (Hmin eq_refl).
  rewrite !str_length_app in Hmin.
  destruct sep as [|c sep]; [done|]. simpl in Hmin. lia.
Qed.

Lemma clean_source_free entry s :
  clean_source entry = inr s → ¬ occurs " - " s.
Proof.
  rewrite clean_source_eq. cbn zeta. unfold Str.split.
  set (t := default EmptyString (nested_source_title entry)).
  pose proof (split_go_head " - " EmptyString t) as Hsplit.
  pose proof (contains_spec " - " t) as Hocc.
  destruct (Str.contains " - " t).
  - destruct Hsplit as (before & pieces & Hfirst & ->). intros [= <-].
    by apply (text_before_first_free " - " t).
  - intros [= <-] Ht%Hocc. discriminate Ht.
Qed.

(** X5: no article returned by [parse_rss_feed] has a [source] holding
    the separator " - ". *)
Theorem parse_rss_feed_sources_free w rss_url st articles st' a :
  parse_rss_feed w rss_url st = (inr articles, st') →
  a ∈ articles →
  ¬ occurs " - " (source a).
Proof.
  intros [-> | Hbody]%parse_rss_feed_inv Hin; [by apply elem_of_nil in Hin|].
  apply parse_rss_feed_body_inv in Hbody as (feed & _ & Hall).
  apply list_elem_of_lookup in Hin as [i Hi].
  eapply Forall2_lookup_r in Hall as (entry & _ & Hnorm); [|done].
  destruct Hnorm as (_ & _ & _ & _ & Hsource). by eapply clean_source_free.
Qed.

Lemma parse_rss_feed_sources_free_witness :
  ¬ occurs " - " (source good_article).
Proof.
  apply (parse_rss_feed_sources_free (feed_world [good_entry] false) feed_a st0
           [good_article] st0 good_article).
  - reflexivity.
  - apply list_elem_of_In. left. reflexivity.
Defined.

(** X6: two ways to an empty result, one logged and one silent.  When the
    feed parser raises, [parse_rss_feed] prints the exception and returns
    the empty list; when the feed has no entry, it returns the empty list
    and prints nothing. *)
Theorem parse_rss_feed_empty_logged_or_silent w rss_url st :
  (∀ e, feedparser_parse w rss_url = inl e →
        parse_rss_feed w rss_url st
        = (inr [], say ("Error parsing RSS feed: " +:+ exn_str e) st)) ∧
  (∀ feed, feedparser_parse w rss_url = inr feed → entries feed = [] →
           parse_rss_feed w rss_url st = (inr [], st)).
Proof.
  split.
  - intros e Hfeed. unfold parse_rss_feed, try_except, parse_rss_feed_body.
    by rewrite bind_run, Hfeed.
  - intros feed Hfeed Hnil. unfold parse_rss_feed, try_except, parse_rss_feed_body.
    by rewrite bind_run, Hfeed, lift_inr, Hnil.
Qed.

Lemma parse_rss_feed_empty_logged_or_silent_witness :
  parse_rss_feed parser_down_world feed_a st0
  = (inr [], say "Error parsing RSS feed: feed unreachable" st0) ∧
  parse_rss_feed (feed_world [] false) feed_a st0 = (inr [], st0).
Proof.
  split.
  - apply (proj1 (parse_rss_feed_empty_logged_or_silent parser_down_world feed_a st0)
             (Exception "feed unreachable")).
    reflexivity.
  - apply (proj2 (parse_rss_feed_empty_logged_or_silent (feed_world [] false) feed_a st0)
             {| entries := [] |}); reflexivity.
Defined.

(** ** The README: top block and history table *)

Lemma top_news_loop_concat i articles markdown_content :
  top_news_loop i articles markdown_content
  = markdown_content
    +:+ concat_all (imap (λ k a, item_head (i + k) a +:+ item_excerpt a) articles).
Proof.
  revert i markdown_content.
  induction articles as [|a rest IH]; intros i markdown_content.
  - simpl. by rewrite str_app_nil_r.
  - cbn [top_news_loop]. rewrite IH, imap_cons. cbn [concat_all foldr].
    rewrite Nat.add_0_r, !str_app_assoc. do 3 f_equal.
    unfold concat_all. f_equal.
    apply imap_ext. intros k b _. simpl. by rewrite Nat.add_succ_r.
Qed.


Lemma str_take_app s t : Str.take (String.length s) (s +:+ t) = s.
Proof. induction s as [|c s IH]; [by destruct t|]. rewrite str_app_cons. simpl. by rewrite IH. Qed.

Lemma startswith_refl p : Str.startswith p p = true.
Proof. apply startswith_spec. exists EmptyString. by rewrite str_app_nil_r. Qed.

Lemma endswith_app p s : Str.endswith p (s +:+ p) = true.
Proof.
  unfold Str.endswith. rewrite str_length_app.
  rewrite bool_decide_eq_true_2 by lia.
  replace (String.length s + String.length p - String.length p)
    with (String.length s) by lia.
  by rewrite str_drop_app, startswith_refl.
Qed.


Lemma lift_fs_read {A} (f : FS → exn + A) st :
  lift_fs (λ fs, (f fs, fs)) st = lift (f (fs st)) st.
Proof. destruct st as [out files]. unfold lift_fs. simpl. by destruct (f files). Qed.

(** The history loop reads, and leaves the state as it found it. *)
Lemma history_loop_state w files markdown_content st r st' :
  history_loop w files markdown_content st = (r, st') → st' = st.
Proof.
  revert markdown_content. induction files as [|file rest IH]; intros markdown_content.
  - by intros [= _ <-].
  - cbn [history_loop]. destruct (_ && _); [|apply IH].
    rewrite bind_run, lift_fs_read.
    destruct (json_load_articles_len w _ _) as [e|n]; [by intros [= _ <-]|].
    rewrite lift_inr. apply IH.
Qed.

(** X9: when every snapshot file of a listing can be loaded, the history
    loop appends one row per file whose name starts with [google-news-]
    and ends with [.json], in the order of the listing, each with the
    date cut out of the name and the number of articles loaded; the other
    names are skipped, and no file is loaded for them. *)
Theorem history_loop_rows w files markdown_content st (count : string → nat) :
  (∀ file, file ∈ files → is_snapshot_name file = true →
     json_load_articles_len w (os_path_join OUTPUT_DIR file) (fs st)
     = inr (count file)) →
  history_loop w files markdown_content st
  = (inr (markdown_content
          +:+ concat_all
                ((λ file, history_row (Str.slice_between 12 5 file) (count file) file)
                 <$> filter (λ file, is_snapshot_name file = true) files)),
     st).
Proof.
  revert markdown_content. induction files as [|file rest IH];
    intros markdown_content Hload.
  - simpl. by rewrite str_app_nil_r.
  - cbn [history_loop]. fold (is_snapshot_name file).
    destruct (is_snapshot_name file) eqn:Hname.
    + rewrite filter_cons_True by done.
      rewrite bind_run, lift_fs_read, (Hload file) by (done || left).
      rewrite lift_inr, IH by (intros; apply Hload; [by right|done]).
      cbn [fmap list_fmap concat_all foldr]. by rewrite !str_app_assoc.
    + rewrite filter_cons_False by (by rewrite Hname).
      apply IH. intros; apply Hload; [by right|done].
Qed.

Lemma history_loop_rows_witness :
  history_loop (feed_world [] false)
    ["google-news-2024-05-01.json"; "notes.txt"; "google-news-2024-04-30.json"]
    "|---|" two_days_st
  = (inr ("|---|"
          +:+ "| 2024-05-01 | 2 articles | [View](news/google-news-2024-05-01.json) |"
          +:+ newline
          +:+ "| 2024-04-30 | 1 articles | [View](news/google-news-2024-04-30.json) |"
          +:+ newline),
     two_days_st).
Proof.
  etrans.
  - apply (history_loop_rows (feed_world [] false)
             ["google-news-2024-05-01.json"; "notes.txt"; "google-news-2024-04-30.json"]
             "|---|" two_days_st
             (λ file, if decide (file = "google-news-2024-05-01.json") then 2 else 1)).
    intros file Hin Hname.
    repeat (apply elem_of_cons in Hin as [-> | Hin];
            [try reflexivity; discriminate Hname|]).
    apply elem_of_nil in Hin. destruct Hin.
  - reflexivity.
Defined.

(** [sorted(..., reverse=True)] rearranges the names it is given so that
    each name is followed only by names that are not greater. *)
Lemma sorted_reverse_sorted names :
  sorted_reverse names ≡ₚ names ∧
  StronglySorted (λ a b, String.le b a) (sorted_reverse names).
Proof.
  split; [apply merge_sort_Permutation|].
  apply StronglySorted_merge_sort.
  - intros a b c Hab Hbc. by etrans.
  - intros a b. destruct (String.le_total a b); auto.
Qed.

(** One snapshot file that cannot be loaded makes the history loop
    raise. *)
Lemma history_loop_raises w files markdown_content st file e :
  file ∈ files → is_snapshot_name file = true →
  json_load_articles_len w (os_path_join OUTPUT_DIR file) (fs st) = inl e →
  ∃ e', history_loop w files markdown_content st = (inl (Exc e'), st).
Proof.
  intros Hin Hname Hload. revert markdown_content.
  induction files as [|file' rest IH]; intros markdown_content;
    [by apply elem_of_nil in Hin|].
  cbn [history_loop]. fold (is_snapshot_name file').
  apply elem_of_cons in Hin as [<- | Hin].
  - rewrite Hname, bind_run, lift_fs_read, Hload. exists e. reflexivity.
  - destruct (is_snapshot_name file'); [|by apply IH].
    rewrite bind_run, lift_fs_read.
    destruct (json_load_articles_len w (os_path_join OUTPUT_DIR file') (fs st))
      as [e'|n]; [exists e'; reflexivity|].
    rewrite lift_inr. by apply IH.
Qed.

(** X11: when one snapshot file of the listing cannot be loaded,
    [update_readme] prints an error and returns without writing the
    README: the file system is as it was. *)
Theorem update_readme_unreadable_snapshot w articles date_str st now files file e :
  now_local w = inr now →
  os_listdir w OUTPUT_DIR (fs st) = inr files →
  file ∈ files → is_snapshot_name file = true →
  json_load_articles_len w (os_path_join OUTPUT_DIR file) (fs st) = inl e →
  ∃ e', update_readme w articles date_str st
        = (inr tt, say ("Error updating README: " +:+ exn_str e') st).
Proof.
  intros Hnow Hlist Hin Hname Hload.
  assert (file ∈ sorted_reverse files) as Hin'.
  { unfold sorted_reverse. by rewrite merge_sort_Permutation. }
  unfold update_readme, try_except, update_readme_body. cbn zeta.
  rewrite bind_run, Hnow, lift_inr, bind_run, lift_fs_read, Hlist, lift_inr, bind_run.
  match goal with
  | |- context [history_loop w _ ?md st] =>
      destruct (history_loop_raises w _ md st file e Hin' Hname Hload) as [e' ->]
  end.
  by exists e'.
Qed.

Lemma update_readme_unreadable_snapshot_witness :
  ∃ e', update_readme stale_listing_world [good_article] "2024-05-01" two_days_st
        = (inr tt, say ("Error updating README: " +:+ exn_str e') two_days_st).
Proof.
  apply (update_readme_unreadable_snapshot stale_listing_world [good_article]
           "2024-05-01" two_days_st "2024-04-30 23:10:00"
           ["google-news-2024-05-01.json"; "google-news-2024-04-29.json"]
           "google-news-2024-04-29.json" (Exception "Expecting value")).
  - reflexivity.
  - reflexivity.
  - apply list_elem_of_In. right. left. reflexivity.
  - reflexivity.
  - reflexivity.
Defined.

(** ** Saving *)

(** X12: when the output directory cannot be created, or the date cannot
    be computed, [save_news_data] prints the error and returns; the file
    system is what the attempt to create the directory left, so that
    neither the snapshot nor the README is written. *)
Theorem save_news_data_stops_early w articles st :
  (∀ e fs1,
     os_makedirs w OUTPUT_DIR (fs st) = (inl e, fs1) →
     save_news_data w articles st
     = (inr tt, {| stdout := stdout st ++ ["Error saving news data: " +:+ exn_str e];
                   fs := fs1 |})) ∧
  (∀ e fs1,
     os_makedirs w OUTPUT_DIR (fs st) = (inr tt, fs1) →
     now_beijing_date w = inl e →
     save_news_data w articles st
     = (inr tt, {| stdout := stdout st ++ ["Error saving news data: " +:+ exn_str e];
                   fs := fs1 |})).
Proof.
  split; intros e fs1 Hmk.
  - unfold save_news_data, try_except, save_news_data_body.
    rewrite bind_run. unfold lift_fs at 1. by rewrite Hmk.
  - intros Hdate. unfold save_news_data, try_except, save_news_data_body.
    rewrite bind_run. unfold lift_fs at 1. by rewrite Hmk, bind_run, Hdate.
Qed.

Lemma save_news_data_stops_early_witness :
  save_news_data read_only_world [good_article] st0
  = (inr tt, {| stdout := ["Error saving news data: Read-only file system"];
                fs := ∅ |}).
Proof.
  apply (proj1 (save_news_data_stops_early read_only_world [good_article] st0)
           (Exception "Read-only file system") ∅).
  reflexivity.
Defined.

(** X13: once the snapshot is written, [save_news_data] ends with the
    line "Successfully saved N articles for <date>", N being the number
    of articles, whatever happens while the README is regenerated. *)
Theorem save_news_data_after_snapshot w articles st fs1 date_str fs2 :
  os_makedirs w OUTPUT_DIR (fs st) = (inr tt, fs1) →
  now_beijing_date w = inr date_str →
  open_json_dump w (snapshot_path date_str)
    {| snap_date := date_str; snap_source_url := NEWS_URL w; snap_articles := articles |}
    fs1 = (inr tt, fs2) →
  ∃ st2,
    update_readme w articles date_str {| stdout := stdout st; fs := fs2 |} = (inr tt, st2) ∧
    save_news_data w articles st
    = (inr tt, say ("Successfully saved " +:+ pretty (length articles)
                    +:+ " articles for " +:+ date_str) st2).
Proof.
  intros Hmk Hdate Hdump.
  destruct (total_update_readme w articles date_str {| stdout := stdout st; fs := fs2 |})
    as ([] & st2 & Hreadme).
  exists st2. split; [done|].
  unfold save_news_data, try_except, save_news_data_body.
  rewrite bind_run. unfold lift_fs at 1. rewrite Hmk.
  rewrite bind_run, Hdate, lift_inr, bind_run. unfold lift_fs at 1.
  cbn [fs stdout]. unfold snapshot_path, snapshot_name in Hdump. rewrite Hdump.
  by rewrite bind_run, Hreadme, print_run.
Qed.

Lemma save_news_data_after_snapshot_witness :
  ∃ st2,
    update_readme stale_listing_world [good_article] "2024-05-01"
      {| stdout := [];
         fs := <[snapshot_path "2024-05-01" :=
                   JsonFile {| snap_date := "2024-05-01";
                               snap_source_url := NEWS_URL stale_listing_world;
                               snap_articles := [good_article] |}]> ∅ |}
    = (inr tt, st2) ∧
    save_news_data stale_listing_world [good_article] st0
    = (inr tt, say ("Successfully saved " +:+ pretty 1 +:+ " articles for " +:+ "2024-05-01")
                 st2).
Proof.
  apply (save_news_data_after_snapshot stale_listing_world [good_article] st0 ∅
           "2024-05-01"); reflexivity.
Defined.

(** [update_readme] changes the file system by its one write of the
    README, or not at all. *)
Lemma update_readme_fs w articles date_str st r st' :
  update_readme w articles date_str st = (r, st') →
  fs st' = fs st ∨
  ∃ content, fs st' = (open_write w "README.md" content (fs st)).2.
Proof.
  unfold update_readme, try_except, update_readme_body. cbn zeta.
  rewrite bind_run. destruct (now_local w) as [e|now]; [intros [= _ <-]; by left|].
  rewrite lift_inr, bind_run, lift_fs_read.
  destruct (os_listdir w OUTPUT_DIR (fs st)) as [e|files]; [intros [= _ <-]; by left|].
  rewrite lift_inr, bind_run.
  match goal with
  | |- context [history_loop w ?l ?md st] =>
      destruct (history_loop w l md st) as [[sg|content] st1] eqn:Hloop;
      apply history_loop_state in Hloop as ->
  end.
  - destruct sg as [e|code]; intros [= _ <-]; by left.
  - unfold lift_fs.
    destruct (open_write w "README.md" content (fs st)) as [[e|[]] fs'] eqn:Hwrite;
      intros [= _ <-]; right; exists content; by rewrite Hwrite.
Qed.

(** X14: on a disk that creates the directory, stores the snapshot it is
    given, and does not disturb it when the README is written, a run that
    resolves a feed and extracts at least one article exits with code 0
    and leaves, at [news/google-news-<date>.json], the snapshot made of
    the date, of [NEWS_URL] and of exactly the articles extracted,
    whether the README could be regenerated or not. *)
Theorem run_persists_snapshot w st rss_url articles date_str :
  resolves_to w (Some rss_url) → truthy_url (Some rss_url) = true →
  extracts w rss_url articles → articles ≠ [] →
  now_beijing_date w = inr date_str →
  (∀ fs0, os_makedirs w OUTPUT_DIR fs0 = (inr tt, fs0)) →
  (∀ path doc fs0, open_json_dump w path doc fs0 = (inr tt, <[path := JsonFile doc]> fs0)) →
  (∀ content fs0,
     (open_write w "README.md" content fs0).2 !! snapshot_path date_str
     = fs0 !! snapshot_path date_str) →
  (run w st).1 = 0%Z ∧
  fs (run w st).2 !! snapshot_path date_str
  = Some (JsonFile {| snap_date := date_str;
                      snap_source_url := NEWS_URL w;
                      snap_articles := articles |}).
Proof.
  intros Hr Htruthy Hext Hne Hdate Hmk Hdump Hwrite.
  pose proof (main_cases w st _ Hr) as Hmain.
  destruct rss_url as [|c url]; [done|]. specialize (Hmain _ Hext).
  destruct articles as [|a articles]; [done|].
  destruct Hmain as (st1 & st2 & _ & Hsave & Hmain).
  rewrite run_eq, Hmain. cbn [fst snd exit_code]. split; [done|].
  destruct (save_news_data_after_snapshot w (a :: articles) st1 _ date_str _
              (Hmk _) Hdate (Hdump _ _ _)) as (st3 & Hreadme & Hsave').
  rewrite Hsave in Hsave'. injection Hsave' as ->. cbn [say fs].
  apply update_readme_fs in Hreadme as [-> | [content ->]]; cbn [fs];
    [|rewrite Hwrite]; apply lookup_insert_eq.
Qed.

Lemma run_persists_snapshot_witness :
  (run stale_listing_world st0).1 = 0%Z ∧
  fs (run stale_listing_world st0).2 !! snapshot_path "2024-05-01"
  = Some (JsonFile {| snap_date := "2024-05-01";
                      snap_source_url := NEWS_URL stale_listing_world;
                      snap_articles := [good_article] |}).
Proof.
  apply (run_persists_snapshot stale_listing_world st0 feed_a [good_article] "2024-05-01").
  - intros st. reflexivity.
  - reflexivity.
  - intros st. reflexivity.
  - discriminate.
  - reflexivity.
  - reflexivity.
  - reflexivity.
  - intros content fs0. apply lookup_insert_ne. discriminate.
Defined.

(** ** The driver and an empty link *)

Lemma get_rss_feed_url_found w topic_url st body soup tag href :
  fetched w topic_url body soup →
  find "link" [("type", "application/rss+xml")] soup = Some tag →
  getitem tag "href" = inr href →
  get_rss_feed_url w topic_url st = (inr (Some href), st).
Proof.
  intros Hfetched Hfind Hhref.
  pose proof (get_rss_feed_url_body_fetched _ _ _ _ st Hfetched) as Hbody.
  rewrite Hfind, Hhref in Hbody.
  destruct (get_rss_feed_url_cases w topic_url st) as [(r & Hr & ->) | (e & He & _)];
    congruence.
Qed.

(** X15: when the first feed link of the topic page has an empty [href],
    the run takes the empty string for a missing feed: it prints "Failed
    to find RSS feed URL" after the two opening lines and exits with
    code 1, without scanning the text of the page and without touching
    the file system. *)
Theorem run_empty_href w st body soup tag :
  fetched w (NEWS_URL w) body soup →
  first_rss_link soup tag →
  href_of tag = Some EmptyString →
  run w st
  = (1%Z, say "Failed to find RSS feed URL"
            (say ("Target URL: " +:+ NEWS_URL w)
               (say "Starting Google News scraper..." st))).
Proof.
  intros Hfetched Hfirst Hhref.
  assert (is_rss_link tag) as Hlink by (by destruct Hfirst as (? & ? & ? & ? & ?)).
  unfold run, main. rewrite !print_bind, bind_run.
  rewrite (get_rss_feed_url_found w (NEWS_URL w) _ body soup tag EmptyString Hfetched).
  - by rewrite print_bind.
  - by apply find_first_rss_link.
  - by rewrite getitem_href, Hhref.
Qed.

Lemma run_empty_href_witness :
  re_search quoted_body = Some feed_b ∧
  run (page_world quoted_body empty_href_soup) st0
  = (1%Z, {| stdout := [ "Starting Google News scraper...";
                         "Target URL: " +:+ default_news_url;
                         "Failed to find RSS feed URL" ];
             fs := ∅ |}).
Proof.
  split; [reflexivity|].
  apply (run_empty_href (page_world quoted_body empty_href_soup) st0 quoted_body
           empty_href_soup (rss_link {[ "href" := EmptyString ]})).
  - eexists. repeat split.
  - eexists [_; _], _. split; [reflexivity|]. split; [reflexivity|].
    not_rss_links.
  - reflexivity.
Defined.

(** X16: a run exits with code 0 exactly when the resolver returns a
    non-empty feed URL and the normalizer at least one article for it;
    what the file system does while saving has no part in the exit
    code. *)
Theorem run_exit_zero_iff w st :
  (run w st).1 = 0%Z ↔
  ∃ rss_url articles,
    resolves_to w (Some rss_url) ∧ truthy_url (Some rss_url) = true ∧
    extracts w rss_url articles ∧ articles ≠ [].
Proof.
  rewrite run_eq. cbn [fst]. split.
  - intros Hcode. destruct (resolves_to_total w) as [r Hr].
    pose proof (main_cases w st r Hr) as Hmain.
    destruct r as [[|c url]|].
    + destruct Hmain as (st' & Hmain & _). by rewrite Hmain in Hcode.
    + destruct (extracts_total w (String c url)) as [articles Hext].
      specialize (Hmain articles Hext). destruct articles as [|a articles].
      * destruct Hmain as (st' & Hmain & _). by rewrite Hmain in Hcode.
      * by exists (String c url), (a :: articles).
    + destruct Hmain as (st' & Hmain & _). by rewrite Hmain in Hcode.
  - intros (rss_url & articles & Hr & Htruthy & Hext & Hne).
    pose proof (main_cases w st _ Hr) as Hmain.
    destruct rss_url as [|c url]; [done|]. specialize (Hmain _ Hext).
    destruct articles as [|a articles]; [done|].
    by destruct Hmain as (st1 & st2 & _ & _ & ->).
Qed.

Lemma run_exit_zero_iff_witness :
  (run read_only_world st0).1 = 0%Z.
Proof.
  apply (proj2 (run_exit_zero_iff read_only_world st0)).
  exists feed_a, [good_article]. split; [|split; [|split]].
  - intros st. reflexivity.
  - reflexivity.
  - intros st. reflexivity.
  - discriminate.
Defined.

(** * The README as written *)

Lemma history_loop_closed w files markdown_content st (count : string → nat) :
  (∀ file, file ∈ files → is_snapshot_name file = true →
     json_load_articles_len w (os_path_join OUTPUT_DIR file) (fs st)
     = inr (count file)) →
  history_loop w files markdown_content st
  = (inr (markdown_content
          +:+ concat_all
                (history_rows count (filter (λ file, is_snapshot_name file = true) files))),
     st).
Proof.
  revert markdown_content. induction files as [|file rest IH];
    intros markdown_content Hload.
  - simpl. by rewrite str_app_nil_r.
  - assert (∀ file', file' ∈ rest → is_snapshot_name file' = true →
              json_load_articles_len w (os_path_join OUTPUT_DIR file') (fs st)
              = inr (count file')) as Hrest
      by (intros; apply Hload; [by right|done]).
    cbn [history_loop]. fold (is_snapshot_name file).
    destruct (is_snapshot_name file) eqn:Hname.
    + rewrite filter_cons_True by done.
      rewrite bind_run, lift_fs_read, (Hload file) by (done || left).
      rewrite lift_inr, (IH _ Hrest). unfold history_rows.
      cbn [fmap list_fmap concat_all foldr]. by rewrite !str_app_assoc.
    + rewrite filter_cons_False by (by rewrite Hname). by apply IH.
Qed.

(** When the clock answers, the directory can be listed and every
    snapshot file of the listing can be loaded, [update_readme] is the
    write of a content made of the header, of what the loop over the
    first five articles appends to it, of the links and table head, and
    of one row per snapshot file of the sorted listing. *)
Lemma update_readme_writes_loop w articles date_str st now files count :
  now_local w = inr now →
  os_listdir w OUTPUT_DIR (fs st) = inr files →
  (∀ file, file ∈ files → is_snapshot_name file = true →
     json_load_articles_len w (os_path_join OUTPUT_DIR file) (fs st)
     = inr (count file)) →
  update_readme w articles date_str st
  = write_readme w
      (top_news_loop 1 (take 5 articles) (readme_header now date_str)
       +:+ readme_links date_str
       +:+ concat_all
             (history_rows count
                (filter (λ file, is_snapshot_name file = true) (sorted_reverse files))))
      st.
Proof.
  intros Hnow Hlist Hload.
  unfold update_readme, write_readme, try_except.
  match goal with
  | |- context [lift_fs (open_write w "README.md" ?c) st] =>
      assert (update_readme_body w articles date_str st
              = lift_fs (open_write w "README.md" c) st) as ->; [|done]
  end.
  unfold update_readme_body. cbn zeta.
  rewrite bind_run, Hnow, lift_inr, bind_run, lift_fs_read, Hlist, lift_inr, bind_run.
  rewrite (history_loop_closed _ _ _ _ count).
  - unfold readme_header, readme_links. by rewrite !str_app_assoc.
  - intros file Hin. apply Hload. unfold sorted_reverse in Hin.
    by rewrite merge_sort_Permutation in Hin.
Qed.

(** C8: in the README that [update_readme] writes, the item of each of
    the first five articles ends with the marker, the first 150
    characters of the raw [summary], whatever they are, the literal
    "..." and two line ends; a summary of fewer than 150 characters
    stands there in full. *)
Theorem readme_excerpt w articles date_str st now files count k article :
  now_local w = inr now →
  os_listdir w OUTPUT_DIR (fs st) = inr files →
  (∀ file, file ∈ files → is_snapshot_name file = true →
     json_load_articles_len w (os_path_join OUTPUT_DIR file) (fs st)
     = inr (count file)) →
  k < 5 →
  articles !! k = Some article →
  ∃ content before after excerpt,
    update_readme w articles date_str st = write_readme w content st ∧
    content = before +:+ item_head (S k) article
              +:+ ("   > " +:+ excerpt +:+ "..." +:+ newline +:+ newline) +:+ after ∧
    first_chars 150 (summary article) excerpt ∧
    (Str.char_count (summary article) < 150 → excerpt = summary article).
Proof.
  intros Hnow Hlist Hload Hk Hlook.
  destruct (top_news_loop_item (take 5 articles) 1 k article (readme_header now date_str))
    as (before & after & Hloop); [by rewrite lookup_take_lt|].
  eexists _, (readme_header now date_str +:+ before), _,
    (Str.take_chars 150 (summary article)).
  split; [by apply (update_readme_writes_loop _ _ _ _ now files count)|].
  split; [|split].
  - rewrite Hloop. unfold item_excerpt. rewrite !str_app_assoc. reflexivity.
  - apply take_chars_first_chars.
  - intros Hshort. apply take_chars_short. lia.
Qed.

Lemma readme_excerpt_witness :
  ∃ content before after excerpt,
    update_readme (feed_world [] false) (replicate 7 wide_article) "2024-05-01" st0
    = write_readme (feed_world [] false) content st0 ∧
    content = before +:+ item_head 5 wide_article
              +:+ ("   > " +:+ excerpt +:+ "..." +:+ newline +:+ newline) +:+ after ∧
    first_chars 150 wide_summary excerpt ∧
    (Str.char_count wide_summary < 150 → excerpt = wide_summary).
Proof.
  apply (readme_excerpt (feed_world [] false) (replicate 7 wide_article) "2024-05-01" st0
           "2024-04-30 23:10:00" [] (λ _, 0) 4 wide_article).
  - reflexivity.
  - reflexivity.
  - intros file Hin. apply elem_of_nil in Hin. destruct Hin.
  - lia.
  - reflexivity.
Defined.

(** A summary of sixty characters, which take 180 bytes, is rendered in
    full. *)
Example item_excerpt_wide :
  item_excerpt wide_article = "   > " +:+ wide_summary +:+ "..." +:+ newline +:+ newline.
Proof. reflexivity. Qed.

(** X7: in the README that [update_readme] writes, the header is followed
    by exactly one item (head line and excerpt line) per article for the
    first [min(5, N)] articles, in the order of the articles and numbered
    from 1, and then by the links and the history table. *)
Theorem top_news_block w articles date_str st now files count :
  now_local w = inr now →
  os_listdir w OUTPUT_DIR (fs st) = inr files →
  (∀ file, file ∈ files → is_snapshot_name file = true →
     json_load_articles_len w (os_path_join OUTPUT_DIR file) (fs st)
     = inr (count file)) →
  update_readme w articles date_str st
  = write_readme w
      (readme_header now date_str
       +:+ concat_all (imap top_news_item (take 5 articles))
       +:+ readme_links date_str
       +:+ concat_all
             (history_rows count
                (filter (λ file, is_snapshot_name file = true) (sorted_reverse files))))
      st ∧
  length (imap top_news_item (take 5 articles)) = 5 `min` length articles.
Proof.
  intros Hnow Hlist Hload. split.
  - rewrite (update_readme_writes_loop _ _ _ _ now files count) by done.
    by rewrite top_news_loop_concat, !str_app_assoc.
  - by rewrite length_imap, length_take.
Qed.

Lemma top_news_block_witness :
  update_readme (feed_world [] false) (replicate 7 good_article) "2024-05-01" two_days_st
  = write_readme (feed_world [] false)
      (readme_header "2024-04-30 23:10:00" "2024-05-01"
       +:+ concat_all (imap top_news_item (take 5 (replicate 7 good_article)))
       +:+ readme_links "2024-05-01"
       +:+ concat_all
             (history_rows (λ _, 0)
                (filter (λ file, is_snapshot_name file = true) (sorted_reverse []))))
      two_days_st ∧
  length (imap top_news_item (take 5 (replicate 7 good_article)))
  = 5 `min` length (replicate 7 good_article).
Proof.
  apply (top_news_block (feed_world [] false) (replicate 7 good_article) "2024-05-01"
           two_days_st "2024-04-30 23:10:00" [] (λ _, 0)).
  - reflexivity.
  - reflexivity.
  - intros file Hin. apply elem_of_nil in Hin. destruct Hin.
Defined.

Lemma StronglySorted_filter {A} (R : relation A) (P : A → Prop)
    `{!∀ x, Decision (P x)} (l : list A) :
  StronglySorted R l → StronglySorted R (filter P l).
Proof.
  induction 1 as [|x l Hl IH Hx]; [constructor|].
  destruct (decide (P x)).
  - rewrite filter_cons_True by done. constructor; [done|].
    apply Forall_forall. intros y [_ Hy]%list_elem_of_filter.
    by eapply Forall_forall in Hx.
  - by rewrite filter_cons_False.
Qed.

(** X10: in the README that [update_readme] writes, the history table
    has one row per snapshot file name of the listing, and the rows stand
    in descending order of file name: each row is followed only by rows
    of names that are not greater. *)
Theorem history_table_descending w articles date_str st now files count :
  now_local w = inr now →
  os_listdir w OUTPUT_DIR (fs st) = inr files →
  (∀ file, file ∈ files → is_snapshot_name file = true →
     json_load_articles_len w (os_path_join OUTPUT_DIR file) (fs st)
     = inr (count file)) →
  ∃ names,
    names ≡ₚ filter (λ file, is_snapshot_name file = true) files ∧
    StronglySorted (λ a b, String.le b a) names ∧
    update_readme w articles date_str st
    = write_readme w
        (readme_header now date_str
         +:+ concat_all (imap top_news_item (take 5 articles))
         +:+ readme_links date_str
         +:+ concat_all (history_rows count names))
        st.
Proof.
  intros Hnow Hlist Hload.
  exists (filter (λ file, is_snapshot_name file = true) (sorted_reverse files)).
  destruct (sorted_reverse_sorted files) as [Hperm Hsorted].
  split; [by rewrite Hperm|]. split; [by apply StronglySorted_filter|].
  rewrite (update_readme_writes_loop _ _ _ _ now files count) by done.
  by rewrite top_news_loop_concat, !str_app_assoc.
Qed.

Lemma history_table_descending_witness :
  ∃ names,
    names ≡ₚ filter (λ file, is_snapshot_name file = true)
               ["google-news-2024-04-30.json"; "notes.txt"; "google-news-2024-05-01.json"] ∧
    StronglySorted (λ a b, String.le b a) names ∧
    update_readme two_days_world [good_article] "2024-05-01" two_days_st
    = write_readme two_days_world
        (readme_header "2024-04-30 23:10:00" "2024-05-01"
         +:+ concat_all (imap top_news_item (take 5 [good_article]))
         +:+ readme_links "2024-05-01"
         +:+ concat_all (history_rows two_days_count names))
        two_days_st.
Proof.
  apply (history_table_descending two_days_world [good_article] "2024-05-01" two_days_st
           "2024-04-30 23:10:00"
           ["google-news-2024-04-30.json"; "notes.txt"; "google-news-2024-05-01.json"]
           two_days_count).
  - reflexivity.
  - reflexivity.
  - intros file Hin Hname.
    repeat (apply elem_of_cons in Hin as [-> | Hin];
            [try reflexivity; discriminate Hname|]).
    apply elem_of_nil in Hin. destruct Hin.
Defined.

(** The README of a day whose directory holds the snapshots of two days:
    the newer snapshot comes first in the table. *)
Example readme_two_days :
  fs (update_readme two_days_world [good_article] "2024-05-01" two_days_st).2 !! "README.md"
  = Some (TextFile
            (readme_header "2024-04-30 23:10:00" "2024-05-01"
             +:+ top_news_item 0 good_article
             +:+ readme_links "2024-05-01"
             +:+ "| 2024-05-01 | 2 articles | [View](news/google-news-2024-05-01.json) |"
             +:+ newline
             +:+ "| 2024-04-30 | 1 articles | [View](news/google-news-2024-04-30.json) |"
             +:+ newline)).
Proof. reflexivity. Qed.

(** * The name of a snapshot *)

Lemma snapshot_name_recognised date_str :
  is_snapshot_name (snapshot_name date_str) = true ∧
  Str.slice_between 12 5 (snapshot_name date_str) = date_str.
Proof.
  unfold is_snapshot_name, snapshot_name. split.
  - apply andb_true_iff. split.
    + apply startswith_spec. by eexists.
    + rewrite <-str_app_assoc. apply endswith_app.
  - unfold Str.slice_between.
    change 12 with (String.length "google-news-") at 2.
    rewrite str_drop_app, !str_length_app.
    replace (_ - _ - _) with (String.length date_str) by (simpl; lia).
    apply str_take_app.
Qed.

(** X8: [save_news_data] writes the snapshot of the day <date> at
    [news/google-news-<date>.json] and goes on to the README and to its
    success line; the history loop of [update_readme], given the file
    name [google-news-<date>.json], loads that same path and makes the
    row of the day <date>, linked to that path, with the number of
    articles loaded. *)
Theorem snapshot_name_round_trip w articles date_str :
  (∀ st fs1 fs2,
     os_makedirs w OUTPUT_DIR (fs st) = (inr tt, fs1) →
     now_beijing_date w = inr date_str →
     open_json_dump w ("news/google-news-" +:+ date_str +:+ ".json")
       {| snap_date := date_str; snap_source_url := NEWS_URL w;
          snap_articles := articles |} fs1 = (inr tt, fs2) →
     ∃ st2,
       update_readme w articles date_str {| stdout := stdout st; fs := fs2 |}
       = (inr tt, st2) ∧
       save_news_data w articles st
       = (inr tt, say ("Successfully saved " +:+ pretty (length articles)
                       +:+ " articles for " +:+ date_str) st2)) ∧
  (∀ markdown_content st n,
     json_load_articles_len w ("news/google-news-" +:+ date_str +:+ ".json") (fs st)
     = inr n →
     history_loop w ["google-news-" +:+ date_str +:+ ".json"] markdown_content st
     = (inr (markdown_content
             +:+ "| " +:+ date_str +:+ " | " +:+ pretty n
             +:+ " articles | [View](news/google-news-" +:+ date_str +:+ ".json) |"
             +:+ newline),
        st)).
Proof.
  split.
  - intros st fs1 fs2 Hmk Hdate Hdump.
    destruct (total_update_readme w articles date_str {| stdout := stdout st; fs := fs2 |})
      as ([] & st2 & Hreadme).
    exists st2. split; [done|].
    unfold save_news_data, try_except, save_news_data_body.
    rewrite bind_run. unfold lift_fs at 1. rewrite Hmk.
    rewrite bind_run, Hdate, lift_inr, bind_run. unfold lift_fs at 1.
    cbn [fs stdout].
    change (os_path_join OUTPUT_DIR ("google-news-" +:+ date_str +:+ ".json"))
      with ("news/google-news-" +:+ date_str +:+ ".json").
    rewrite Hdump. by rewrite bind_run, Hreadme, print_run.
  - intros markdown_content st n Hload.
    destruct (snapshot_name_recognised date_str) as [Hname Hdate].
    unfold is_snapshot_name, snapshot_name in Hname. unfold snapshot_name in Hdate.
    cbn [history_loop]. rewrite Hname, bind_run, lift_fs_read.
    change (os_path_join OUTPUT_DIR ("google-news-" +:+ date_str +:+ ".json"))
      with ("news/google-news-" +:+ date_str +:+ ".json").
    rewrite Hload, lift_inr. unfold history_row. rewrite Hdate.
    change (os_path_join OUTPUT_DIR ("google-news-" +:+ date_str +:+ ".json"))
      with ("news/google-news-" +:+ date_str +:+ ".json").
    cbn [history_loop mret M_ret]. by rewrite !str_app_assoc.
Qed.

Lemma snapshot_name_round_trip_witness :
  (∃ st2,
     update_readme two_days_world [good_article] "2024-05-01"
       {| stdout := [];
          fs := <["news/google-news-2024-05-01.json" :=
                    JsonFile {| snap_date := "2024-05-01";
                                snap_source_url := NEWS_URL two_days_world;
                                snap_articles := [good_article] |}]> two_days_fs |}
     = (inr tt, st2) ∧
     save_news_data two_days_world [good_article] two_days_st
     = (inr tt, say ("Successfully saved " +:+ pretty 1 +:+ " articles for "
                     +:+ "2024-05-01") st2)) ∧
  history_loop two_days_world ["google-news-" +:+ "2024-05-01" +:+ ".json"] "|---|"
    two_days_st
  = (inr ("|---|" +:+ "| " +:+ "2024-05-01" +:+ " | " +:+ pretty 2
          +:+ " articles | [View](news/google-news-" +:+ "2024-05-01" +:+ ".json) |"
          +:+ newline),
     two_days_st).
Proof.
  split.
  - apply (proj1 (snapshot_name_round_trip two_days_world [good_article] "2024-05-01")
             two_days_st two_days_fs); reflexivity.
  - apply (proj2 (snapshot_name_round_trip two_days_world [good_article] "2024-05-01")).
    reflexivity.
Defined.

(** * The source of the records *)

(** C2: in every record that [parse_rss_feed] returns, the [source] is
    computed from the entry the record comes from: it is the text before
    the first " - " of the entry's nested source title when the title
    contains that separator, the title unchanged when it does not, and
    the empty string when the entry has no source title; the title
    "Reuters - Asia Edition" gives exactly "Reuters". *)
Theorem clean_source_spec w rss_url st feed articles st' i entry a :
  feedparser_parse w rss_url = inr feed →
  parse_rss_feed w rss_url st = (inr articles, st') →
  entries feed !! i = Some entry →
  articles !! i = Some a →
  match nested_source_title entry with
  | Some t =>
      (occurs " - " t → text_before_first " - " t (source a)) ∧
      (¬ occurs " - " t → source a = t) ∧
      (t = "Reuters - Asia Edition" → source a = "Reuters")
  | None => source a = EmptyString
  end.
Proof.
  intros Hfeed Hrun Hentry Ha.
  apply parse_rss_feed_inv in Hrun as [-> | Hbody]; [done|].
  apply parse_rss_feed_body_inv in Hbody as (feed' & Hfeed' & Hall).
  assert (feed' = feed) as -> by congruence.
  eapply Forall2_lookup_r in Hall as (entry' & Hentry' & Hnorm); [|done].
  apply lookup_take_Some in Hentry' as [Hentry' _].
  assert (entry' = entry) as -> by congruence.
  destruct Hnorm as (_ & _ & _ & _ & Hsource).
  pose proof (proj1 clean_source_cases entry) as Hcases.
  pose proof (proj2 clean_source_cases entry) as Hreuters.
  destruct (nested_source_title entry) as [t|]; [|congruence].
  destruct Hcases as [Hsep Hnone]. split; [|split].
  - intros Hocc. destruct (Hsep Hocc) as (before & Hfirst & Hbefore).
    by assert (source a = before) as -> by congruence.
  - intros Hocc. specialize (Hnone Hocc). congruence.
  - intros ->. specialize (Hreuters eq_refl). congruence.
Qed.

Lemma clean_source_spec_witness :
  (occurs " - " "Reuters - Asia Edition" →
   text_before_first " - " "Reuters - Asia Edition" (source good_article)) ∧
  (¬ occurs " - " "Reuters - Asia Edition" →
   source good_article = "Reuters - Asia Edition") ∧
  ("Reuters - Asia Edition" = "Reuters - Asia Edition" → source good_article = "Reuters").
Proof.
  apply (clean_source_spec (feed_world [reuters_entry] false) feed_a st0
           {| entries := [reuters_entry] |} [good_article] st0 0 reuters_entry good_article).
  - reflexivity.
  - reflexivity.
  - reflexivity.
  - reflexivity.
Defined.

(** * The configuration of a run *)




















(** The log of a run under an environment that sets [NEWS_URL] and a
    variable named after the cap: six articles are found. *)
Example run_override_log :
  stdout (run override_world st0).2
  = [ "Starting Google News scraper...";
      "Target URL: https://example.org/topic";
      "Found RSS feed: " +:+ feed_a;
      "Found 6 articles";
      "Successfully saved 6 articles for 2024-05-01";
      "Scraping completed successfully" ].
Proof. reflexivity. Qed.
